(** * pynucastro.networks.rate_collection: Composition and RateCollection

    A shallow embedding of [rate_collection.py].  The classes [Nucleus] and
    [Rate] live in [pynucastro.rates], outside this module; they enter the
    model as interfaces ([NucleusT], [RateT]) carrying exactly the attributes
    and special methods that [rate_collection.py] touches.  Python floats
    enter through the interface [PyFloat], with two instances: exact
    rationals ([Qc]) and IEEE binary64 ([float]).  Exceptions are values of
    [result]; methods that read or write object attributes are computations
    in the state monad [M].

    Statements about the value of an arithmetic expression are proved over
    the exact rationals; where rounding in binary64 changes what such a
    statement says, the run in binary64 stands beside it.  The statement
    about [plot] needs only the sign of a number and holds for both
    ([PyFloatSign]).  A dictionary is a list of items whose
    keys are distinct, and a statement about one says so. *)

From Stdlib Require Import ZArith QArith Qcanon Uint63.
From Corelib Require Import PrimFloat FloatOps FloatAxioms SpecFloat.
From stdpp Require Import base tactics option numbers strings list sorting.

Set Default Proof Using "Type".
Local Open Scope Z_scope.

(** ** Exceptions and results *)

Inductive exn :=
  | ValueError | IndexError | KeyError | TypeError
  | ZeroDivisionError | AssertionError | SystemExit.

Inductive result (A : Type) :=
  | Ok (a : A)
  | Raise (e : exn).
Arguments Ok {A} a.
Arguments Raise {A} e.

Definition is_Ok {A} (r : result A) : Prop :=
  match r with Ok _ => True | Raise _ => False end.

Definition rbind {A B} (r : result A) (k : A → result B) : result B :=
  match r with Ok a => k a | Raise e => Raise e end.

(** [for x in l: acc = body(acc, x)], stopping at the first exception. *)
Fixpoint rfold {A B} (body : B → A → result B) (acc : B) (l : list A) : result B :=
  match l with
  | [] => Ok acc
  | x :: l' => rbind (body acc x) (λ acc', rfold body acc' l')
  end.

(** ** The state monad of object attributes

    A computation receives the attribute store and returns its outcome with
    the store as it stands then: what was written before an exception stays
    written. *)

Definition M (S A : Type) : Type := S → result A * S.

Definition ret {S A} (a : A) : M S A := λ s, (Ok a, s).
Definition bind {S A B} (m : M S A) (k : A → M S B) : M S B :=
  λ s, match m s with
       | (Ok a, s') => k a s'
       | (Raise e, s') => (Raise e, s')
       end.
Definition get {S} : M S S := λ s, (Ok s, s).
Definition put {S} (s : S) : M S unit := λ _, (Ok tt, s).
Definition lift {S A} (r : result A) : M S A := λ s, (r, s).

Global Instance M_ret {S} : MRet (M S) := λ A, ret.
Global Instance M_bind {S} : MBind (M S) := λ A B k m, bind m k.
Global Instance result_ret : MRet result := λ A, Ok.
Global Instance result_bind : MBind result := λ A B k r, rbind r k.

(** [for x in l: body(x)] *)
Fixpoint for_each {S A} (l : list A) (body : A → M S unit) : M S unit :=
  match l with
  | [] => ret tt
  | x :: l' => body x;; for_each l' body
  end.

(** ** Python values of unknown class *)

Inductive pyval :=
  | PyInt (z : Z)
  | PyStr (s : string)
  | PyNone.

Global Instance pyval_eq_dec : EqDecision pyval.
Proof. solve_decision. Defined.

(** ** Dictionaries

    A [dict] keeps its keys in insertion order; assigning to a key that is
    present replaces the value where it stands, assigning to a new key
    appends. *)

Definition dict (K V : Type) : Type := list (K * V).

Section dict.
Context {K V : Type} `{EqDecision K}.

Fixpoint dict_get (k : K) (d : dict K V) : option V :=
  match d with
  | [] => None
  | (k', v) :: d' => if decide (k = k') then Some v else dict_get k d'
  end.

Fixpoint dict_set (k : K) (v : V) (d : dict K V) : dict K V :=
  match d with
  | [] => [(k, v)]
  | (k', v') :: d' =>
      if decide (k = k') then (k', v) :: d' else (k', v') :: dict_set k v d'
  end.

Definition dict_keys (d : dict K V) : list K := d.*1.
Definition dict_values (d : dict K V) : list V := d.*2.

(** [d[k]] *)
Definition dict_getitem (k : K) (d : dict K V) : result V :=
  match dict_get k d with Some v => Ok v | None => Raise KeyError end.

End dict.

(** [set(l)]: the distinct elements of [l].  Python fixes no iteration order
    for a set; the model lists the elements in some order, and every use
    below is either a length or the argument of [sorted]. *)
Definition py_set {A} `{EqDecision A} (l : list A) : list A := remove_dups l.

(** ** [sorted]

    [sorted] is stable and compares with [<] only.  The model inserts each
    element, from the right, before the first element that it is smaller
    than: stable as well, so both give the same list for every key. *)

Section sorted.
Context {A : Type} (ltb : A → A → bool).

Fixpoint sorted_insert (x : A) (l : list A) : list A :=
  match l with
  | [] => [x]
  | y :: l' => if ltb y x then y :: sorted_insert x l' else x :: y :: l'
  end.

Definition py_sorted (l : list A) : list A := foldr sorted_insert [] l.

End sorted.

(** ** Floats *)

Class PyFloat (F : Type) := {
  f_of_int : Z → F;          (* float(i) *)
  f_add : F → F → F;
  f_sub : F → F → F;
  f_mul : F → F → F;
  f_div : F → F → F;         (* on a divisor that is not zero *)
  f_eqb : F → F → bool;      (* == *)
  f_ltb : F → F → bool;      (* < *)
}.

(** The contract on the order that [plot] relies on: a number above zero
    is neither below zero nor equal to it. *)
Class PyFloatSign (F : Type) `{!PyFloat F} : Prop := {
  f_positive : ∀ x : F,
    f_ltb (f_of_int 0) x = true →
    f_ltb x (f_of_int 0) = false ∧ f_eqb x (f_of_int 0) = false;
}.

(** The functions of the C library behind [**] and [math.log10]. *)
Class PyMath (F : Type) := {
  f_pow : F → Z → F;
  f_log10 : F → F;
}.

Section arith.
Context {F : Type} `{!PyFloat F}.

(** [x / y] *)
Definition py_truediv (x y : F) : result F :=
  if f_eqb y (f_of_int 0) then Raise ZeroDivisionError else Ok (f_div x y).

(** A decimal literal [m / 10^k] with [m] and [10^k] below [2^53]: the
    float next to it is the rounded quotient of the two integers. *)
Definition py_lit (m : Z) (k : nat) : F :=
  f_div (f_of_int m) (f_of_int (10 ^ Z.of_nat k)).

(** [sum(l)]: starts from the integer 0 and adds from the left. *)
Definition py_sum (l : list F) : F := foldl f_add (f_of_int 0) l.

(** [functools.reduce(f, l)] with no initial value *)
Definition py_reduce (f : F → F → F) (l : list F) : result F :=
  match l with
  | [] => Raise TypeError
  | x :: l' => Ok (foldl f x l')
  end.

Context `{!PyMath F}.

(** [x ** e] for a float [x] and an integer [e] *)
Definition py_pow (x : F) (e : Z) : result F :=
  if f_eqb x (f_of_int 0) && (e <? 0) then Raise ZeroDivisionError
  else Ok (f_pow x e).

(** [math.log10(x)] *)
Definition math_log10 (x : F) : result F :=
  if f_ltb x (f_of_int 0) || f_eqb x (f_of_int 0) then Raise ValueError
  else Ok (f_log10 x).

End arith.

(** *** Exact rationals *)

Definition Qc_pow (x : Qc) (e : Z) : Qc :=
  match e with
  | Z0 => 1%Qc
  | Zpos p => Qcpower x (Pos.to_nat p)
  | Zneg p => (/ Qcpower x (Pos.to_nat p))%Qc
  end.

Definition Qc_ltb (x y : Qc) : bool :=
  match (x ?= y)%Qc with Lt => true | _ => false end.

Global Instance Qc_PyFloat : PyFloat Qc := {|
  f_of_int z := Q2Qc (inject_Z z);
  f_add := Qcplus;
  f_sub := Qcminus;
  f_mul := Qcmult;
  f_div := Qcdiv;
  f_eqb x y := bool_decide (x = y);
  f_ltb := Qc_ltb;
|}.

Definition Qc_PyMath (log10 : Qc → Qc) : PyMath Qc :=
  {| f_pow := Qc_pow; f_log10 := log10 |}.

(** *** IEEE binary64 *)

Definition float_of_int (z : Z) : float :=
  match z with
  | Zneg p => PrimFloat.opp (PrimFloat.of_uint63 (Uint63.of_Z (Zpos p)))
  | _ => PrimFloat.of_uint63 (Uint63.of_Z z)
  end.

Global Instance float_PyFloat : PyFloat float := {|
  f_of_int := float_of_int;
  f_add := PrimFloat.add;
  f_sub := PrimFloat.sub;
  f_mul := PrimFloat.mul;
  f_div := PrimFloat.div;
  f_eqb := PrimFloat.eqb;
  f_ltb := PrimFloat.ltb;
|}.

(** ** The interfaces of [pynucastro.rates] *)

(** A [Nucleus]: its [==] is the decidable equality, its [<] is
    [Nucleus_ltb]; [raw] is the lower-case name, [A] the mass number. *)
Class NucleusT (Nucleus : Type) := {
  Nucleus_eq_dec :: EqDecision Nucleus;
  Nucleus_ltb : Nucleus → Nucleus → bool;
  raw : Nucleus → string;
  A : Nucleus → positive;
  Nucleus_p : Nucleus;                       (* Nucleus("p") *)
}.

(** The contract on [<]: a strict total order on nuclei. *)
Class NucleusOrder (Nucleus : Type) `{!NucleusT Nucleus} : Prop := {
  Nucleus_lt_irrefl : ∀ a : Nucleus, ¬ Nucleus_ltb a a;
  Nucleus_lt_trans :
    ∀ a b c : Nucleus, Nucleus_ltb a b → Nucleus_ltb b c → Nucleus_ltb a c;
  Nucleus_lt_total :
    ∀ a b : Nucleus, a ≠ b → Nucleus_ltb a b ∨ Nucleus_ltb b a;
}.

(** A [Rate]: the equality is the one dictionaries keyed by rates use. *)
Class RateT (F Nucleus Rate : Type) := {
  Rate_eq_dec :: EqDecision Rate;
  reactants : Rate → list Nucleus;
  products : Rate → list Nucleus;
  prefactor : Rate → F;
  dens_exp : Rate → Z;
  chapter : Rate → pyval;
  fname : Rate → string;
  Rate_eval : Rate → F → F;                  (* r.eval(T) *)
}.

(** The same rates under other file names. *)
Definition RateT_rename {F Nucleus Rate} (R : RateT F Nucleus Rate)
    (name : Rate → string) : RateT F Nucleus Rate := {|
  Rate_eq_dec := Rate_eq_dec;
  reactants := reactants;
  products := products;
  prefactor := prefactor;
  dens_exp := dens_exp;
  chapter := chapter;
  fname := name;
  Rate_eval := Rate_eval;
|}.

(** An element of a sequence handed to a constructor: a [Nucleus], or a
    value of another class. *)
Inductive pyobj (Nucleus : Type) :=
  | ONucleus (n : Nucleus)
  | OOther (v : pyval).
Arguments ONucleus {Nucleus} n.
Arguments OOther {Nucleus} v.

Global Instance pyobj_eq_dec {Nucleus} `{EqDecision Nucleus} :
  EqDecision (pyobj Nucleus).
Proof. solve_decision. Defined.

(** [isinstance(o, Nucleus)] *)
Definition isinstance_Nucleus {Nucleus} (o : pyobj Nucleus) : bool :=
  match o with ONucleus _ => true | OOther _ => false end.

(** [l.count(x)] *)
Definition list_count {A} `{EqDecision A} (x : A) (l : list A) : nat :=
  length (filter (λ y, y = x) l).

(** List comprehensions whose element expression can raise. *)
Fixpoint rmap {A B} (f : A → result B) (l : list A) : result (list B) :=
  match l with
  | [] => Ok []
  | x :: l' => y ← f x; ys ← rmap f l'; Ok (y :: ys)
  end.

Definition rconcat_map {A B} (f : A → result (list B)) (l : list A)
  : result (list B) :=
  ls ← rmap f l; Ok (concat ls).

(** ** class Composition *)

Section Composition.
Context {F Nucleus : Type} `{!PyFloat F, !NucleusT Nucleus}.

(** The attribute [self.X] of a composition over nuclei. *)
Record Composition := { X : dict Nucleus F }.

Definition X_getitem (k : Nucleus) : M Composition F :=
  self ← get; lift (dict_getitem k (X self)).

(** [self.X[k] = v] *)
Definition X_setitem (k : Nucleus) (v : F) : M Composition unit :=
  self ← get; put {| X := dict_set k v (X self) |}.

(** [__init__(self, nuclei, small)]: the dictionary it leaves in [self.X],
    over whatever the sequence [nuclei] holds. *)
Definition Composition_init (nuclei : list (pyobj Nucleus)) (small : F)
  : result (dict (pyobj Nucleus) F) :=
  match nuclei with
  | [] => Raise IndexError
  | o :: _ =>
      if negb (isinstance_Nucleus o) then Raise ValueError
      else Ok (foldl (λ d k, dict_set k small d) [] nuclei)
  end.

(** The default of [small], [1.e-16]. *)
Definition small_default : F := py_lit 1 16.

Definition normalize : M Composition unit :=
  self ← get;
  xs ← lift (rmap (λ k, dict_getitem k (X self)) (dict_keys (X self)));
  let X_sum := py_sum xs in
  for_each (dict_keys (X self)) (λ k,
    x ← X_getitem k;
    y ← lift (py_truediv x X_sum);
    X_setitem k y).

(** The loop of [set_solar_like], with [rem] computed. *)
Definition set_solar_like_loop (Z_ rem : F) : M Composition unit :=
  self ← get;
  for_each (dict_keys (X self)) (λ k,
    if decide (k = Nucleus_p) then X_setitem k (py_lit 7 1)
    else if decide (raw k = "he4") then X_setitem k (f_sub (py_lit 3 1) Z_)
    else X_setitem k rem).

Definition set_solar_like (Z_ : F) : M Composition unit :=
  self ← get;
  let num := Z.of_nat (length (X self)) in
  rem ← lift (py_truediv Z_ (f_of_int (num - 2)));
  set_solar_like_loop Z_ rem;;
  normalize.

Definition set_all (xval : F) : M Composition unit :=
  self ← get;
  for_each (dict_keys (X self)) (λ k, X_setitem k xval).

Definition set_nuc (name : string) (xval : F) : M Composition unit :=
  self ← get;
  match filter (λ k, raw k = name) (dict_keys (X self)) with
  | k :: _ => X_setitem k xval
  | [] => mret tt
  end.

Definition get_molar : M Composition (dict Nucleus F) :=
  self ← get;
  lift (rfold (λ molar_frac '(k, v),
                 y ← py_truediv v (f_of_int (Zpos (A k)));
                 Ok (dict_set k y molar_frac))
              [] (X self)).

End Composition.
Arguments Composition F Nucleus : clear implicits.

(** ** class RateCollection *)

Section RateCollection.
Context {F Nucleus Rate : Type}.
Context `{!PyFloat F, !PyMath F, !NucleusT Nucleus, !RateT F Nucleus Rate}.

Record RateCollection := {
  rates : list Rate;
  unique_nuclei : list Nucleus;
  nuclei_consumed : dict Nucleus (list Rate);
  nuclei_produced : dict Nucleus (list Rate);
  tabular_rates : list nat;
  reaclib_rates : list nat;
}.

(** [r.chapter == 't'] *)
Definition is_tabular (r : Rate) : bool := bool_decide (chapter r = PyStr "t").

(** [isinstance(r.chapter, int)] *)
Definition chapter_is_int (r : Rate) : bool :=
  match chapter r with PyInt _ => true | _ => false end.

(** [False < True] on the keys of the final [sorted] *)
Definition bool_ltb (a b : bool) : bool := negb a && b.

(** [enumerate(l)] *)
Definition enumerate {B} (l : list B) : list (nat * B) := imap (λ n x, (n, x)) l.

(** The first loop of [__init__]: the nuclei of the rates, gathered into
    the set [u] from [u0] on. *)
Definition gathered (u0 : list Nucleus) (rs : list Rate) : list Nucleus :=
  foldl (λ u r, py_set (u ++ py_set (reactants r ++ products r))) u0 rs.

(** The last loop of [__init__]: the positions of the tabulated and of
    the Reaclib rates; a chapter of another kind ends the program. *)
Definition classify (acc : list nat * list nat) (l : list (nat * Rate))
  : result (list nat * list nat) :=
  rfold (λ '(tabular, reaclib) '(n, r),
           if is_tabular r then Ok (tabular ++ [n], reaclib)
           else if chapter_is_int r then Ok (tabular, reaclib ++ [n])
           else Raise SystemExit) acc l.

(** [__init__], from the point where the libraries have been merged:
    [library_rates] is [self.library.get_rates()], or empty when there is
    no library. *)
Definition RateCollection_init (library_rates : list Rate)
  : result RateCollection :=
  let rates0 := [] ++ library_rates in
  let u := gathered [] rates0 in
  let unique := py_sorted Nucleus_ltb u in
  let consumed :=
    foldl (λ d n, dict_set n (filter (λ r, n ∈ reactants r) rates0) d)
          [] unique in
  let produced :=
    foldl (λ d n, dict_set n (filter (λ r, n ∈ products r) rates0) d)
          [] unique in
  let rates1 := py_sorted (λ a b, bool_ltb (is_tabular a) (is_tabular b)) rates0 in
  '(tabular, reaclib) ← classify ([], []) (enumerate rates1);
  Ok {| rates := rates1; unique_nuclei := unique;
        nuclei_consumed := consumed; nuclei_produced := produced;
        tabular_rates := tabular; reaclib_rates := reaclib |}.

(** The objects [evaluate_rates] can reach: [self] and its argument
    [composition]. *)
Record World := {
  w_self : RateCollection;
  w_composition : Composition F Nucleus;
}.

(** A method call on the argument [composition]. *)
Definition on_composition {B} (m : M (Composition F Nucleus) B) : M World B :=
  λ w, let '(r, c) := m (w_composition w) in
       (r, {| w_self := w_self w; w_composition := c |}).

Definition evaluate_rates (rho T : F) : M World (dict Rate F) :=
  ys ← on_composition get_molar;
  w ← get;
  lift (rfold (λ rvals r,
                 p ← py_pow rho (dens_exp r);
                 let val := f_mul (f_mul (prefactor r) p) (Rate_eval r T) in
                 qs ← rmap (λ q, dict_getitem q ys) (reactants r);
                 yfac ← py_reduce f_mul qs;
                 Ok (dict_set r (f_mul yfac val) rvals))
              [] (rates (w_self w))).

(** [_distinguishable_rates] *)
Definition _distinguishable_rates (self : RateCollection) : bool :=
  let names := fname <$> rates self in
  bool_decide (length (py_set names) = length (rates self)).

(** [_write_network]: the stub of this class prints its message and
    returns; the value is what it printed. *)
Definition _write_network (self : RateCollection) : result string :=
  Ok "To create network integration source code, use a class that implements a specific network type.".

(** [write_network], over the [_write_network] of the class at hand (a
    subclass overrides it): the assertion, then the call; the value is
    what the writer wrote. *)
Definition write_network_with {O} (writer : RateCollection → result O)
    (self : RateCollection) : result O :=
  if negb (_distinguishable_rates self) then Raise AssertionError
  else writer self.

Definition write_network : RateCollection → result string :=
  write_network_with _write_network.

(** *** The graph of [plot] *)

(** The nuclei [plot] draws as nodes. *)
Definition node_nuclei (self : RateCollection) : list Nucleus :=
  filter (λ n, raw n ∉ ["p"; "n"; "he4"] ∨
               Exists (λ r, (1 < list_count n (reactants r))%nat) (rates self))
         (unique_nuclei self).

(** The weight of an edge drawn for rate [r]. *)
Definition rate_weight (ydots : option (dict Rate F)) (r : Rate) : result F :=
  match ydots with
  | None => Ok (py_lit 5 1)
  | Some yd =>
      match v ← dict_getitem r yd; math_log10 v with
      | Ok w => Ok w
      | Raise ValueError => Ok (f_of_int (-308))
      | Raise e => Raise e
      end
  end.

(** The edges [plot] adds to the multigraph, in the order it adds them,
    each with its weight. *)
Definition plot_edges (self : RateCollection) (ydots : option (dict Rate F))
  : result (list (Nucleus * Nucleus * F)) :=
  let nodes := node_nuclei self in
  rconcat_map (λ n,
    rs ← dict_getitem n (nuclei_consumed self);
    rconcat_map (λ r,
      rconcat_map (λ p,
        if decide (p ∈ nodes) then
          rate_weight ydots r ≫= λ w, Ok [(n, p, w)]
        else Ok [])
        (products r))
      rs)
    nodes.

(** [plot] up to the drawing: the nodes and the weighted edges.  [rho],
    [T] and [comp] are [None] by default. *)
Definition plot_graph (self : RateCollection) (rho T : option F)
    (comp : option (Composition F Nucleus))
  : result (list Nucleus * list (Nucleus * Nucleus * F)) :=
  ydots ← match rho, T, comp with
          | Some rho, Some T, Some comp =>
              yd ← (evaluate_rates rho T
                      {| w_self := self; w_composition := comp |}).1;
              Ok (Some yd)
          | _, _, _ => Ok None
          end;
  edges ← plot_edges self ydots;
  Ok (node_nuclei self, edges).

End RateCollection.
Arguments RateCollection Nucleus Rate : clear implicits.
Arguments World F Nucleus Rate : clear implicits.

(** *** The overview of the network *)

(** [str(n)] of a nucleus and the attribute [string] of a rate. *)
Class NucleusStr (Nucleus : Type) := Nucleus_str : Nucleus → string.
Class RateStr (Rate : Type) := Rate_string : Rate → string.

(** The line feed. *)
Definition newline : string := String (Ascii.ascii_of_nat 10) EmptyString.

Section overview.
Context {F Nucleus Rate : Type}.
Context `{!PyFloat F, !PyMath F, !NucleusT Nucleus, !RateT F Nucleus Rate}.
Context `{!NucleusStr Nucleus, !RateStr Rate}.

(** [for r in rates: ostr += "     {}\n".format(r.string)] *)
Definition add_rate_lines (ostr : string) (rs : list Rate) : string :=
  foldl (λ ostr r, ostr +:+ ("     " +:+ Rate_string r +:+ newline)) ostr rs.

Definition network_overview (self : RateCollection Nucleus Rate)
  : result string :=
  rfold (λ ostr n,
           let ostr := ostr +:+ (Nucleus_str n +:+ newline) in
           let ostr := ostr +:+ ("  consumed by:" +:+ newline) in
           consumed ← dict_getitem n (nuclei_consumed self);
           let ostr := add_rate_lines ostr consumed in
           let ostr := ostr +:+ ("  produced by:" +:+ newline) in
           produced ← dict_getitem n (nuclei_produced self);
           let ostr := add_rate_lines ostr produced in
           Ok (ostr +:+ newline))
        EmptyString (unique_nuclei self).

(** [__repr__] *)
Definition RateCollection_repr (self : RateCollection Nucleus Rate) : string :=
  foldl (λ string r, string +:+ (Rate_string r +:+ newline))
        EmptyString (rates self).

(** The texts of the rates of [rs], one on a line. *)
Definition repr_lines (rs : list Rate) : string :=
  foldr (λ r s, (Rate_string r +:+ newline) +:+ s) EmptyString rs.

(** One line of the overview for each rate of [rs]. *)
Definition rate_lines (rs : list Rate) : string :=
  foldr (λ r s, ("     " +:+ Rate_string r +:+ newline) +:+ s) EmptyString rs.

(** The part of the overview on nucleus [n], over the rates [rs]. *)
Definition overview_block (rs : list Rate) (n : Nucleus) : string :=
  (Nucleus_str n +:+ newline) +:+
  ("  consumed by:" +:+ newline) +:+
  rate_lines (filter (λ r, n ∈ reactants r) rs) +:+
  ("  produced by:" +:+ newline) +:+
  rate_lines (filter (λ r, n ∈ products r) rs) +:+
  newline.

End overview.

(** ** Notions the statements below are written with *)

Section statements.
Context {F Nucleus Rate : Type}.
Context `{!PyFloat F, !PyMath F, !NucleusT Nucleus, !RateT F Nucleus Rate}.

(** A chapter [__init__] knows: ['t'] or an integer. *)
Definition chapter_known (r : Rate) : Prop := is_tabular r ∨ chapter_is_int r.

(** The mass fraction the loop of [set_solar_like] assigns to a key. *)
Definition solar_value (Z_ rem : F) (k : Nucleus) : F :=
  if decide (k = Nucleus_p) then py_lit 7 1
  else if decide (raw k = "he4") then f_sub (py_lit 3 1) Z_
  else rem.

(** The weight [plot] gives an edge of a rate with a value in [yd]. *)
Definition weight_of (yd : dict Rate F) (r : Rate) : F :=
  match dict_get r yd with
  | Some v =>
      if f_ltb v (f_of_int 0) || f_eqb v (f_of_int 0) then f_of_int (-308)
      else f_log10 v
  | None => f_of_int 0
  end.

End statements.

Section statements_exact.
Context {Nucleus Rate : Type}.
Context `{!PyMath Qc, !NucleusT Nucleus, !RateT Qc Nucleus Rate}.

(** The molar fraction of a nucleus: its mass fraction over its mass
    number. *)
Definition molar_fraction (c : Composition Qc Nucleus) (n : Nucleus) : Qc :=
  match dict_get n (X c) with
  | Some x => (x / f_of_int (Zpos (A n)))%Qc
  | None => 0%Qc
  end.

(** The product, over the distinct nuclei of [l], of [y] to the number of
    times the nucleus occurs in [l]. *)
Definition multiset_product (y : Nucleus → Qc) (l : list Nucleus) : Qc :=
  foldr (λ n acc, (y n ^ list_count n l * acc)%Qc) 1%Qc (remove_dups l).

(** The product of a list of numbers. *)
Definition list_product (l : list Qc) : Qc := foldr Qcmult 1%Qc l.

(** The value of a rate at a density, a temperature and a composition. *)
Definition rate_formula (rho T : Qc) (c : Composition Qc Nucleus) (r : Rate)
  : Qc :=
  (prefactor r * f_pow rho (dens_exp r) * Rate_eval r T
   * multiset_product (molar_fraction c) (reactants r))%Qc.

End statements_exact.

(** ** A small concrete network

    Nuclei given by proton and mass number, rates given by their data, with
    a coefficient linear in the temperature.  The examples below run the
    model on them. *)

Module Sample.

Record nucleus := Nuc { nuc_Z : nat; nuc_A : positive }.

Global Instance nucleus_eq_dec : EqDecision nucleus.
Proof. solve_decision. Defined.

Definition nucleus_raw (n : nucleus) : string :=
  match nuc_Z n, nuc_A n with
  | 0%nat, 1%positive => "n"
  | 1%nat, 1%positive => "p"
  | 1%nat, 2%positive => "d"
  | 2%nat, 3%positive => "he3"
  | 2%nat, 4%positive => "he4"
  | 6%nat, 12%positive => "c12"
  | 6%nat, 13%positive => "c13"
  | 7%nat, 13%positive => "n13"
  | 8%nat, 16%positive => "o16"
  | _, _ => "x"
  end.

(** Ordered by proton number, then by mass number. *)
Definition nucleus_ltb (a b : nucleus) : bool :=
  if decide (nuc_Z a = nuc_Z b) then (nuc_A a <? nuc_A b)%positive
  else (nuc_Z a <? nuc_Z b)%nat.

Definition p : nucleus := Nuc 1 1.
Definition d : nucleus := Nuc 1 2.
Definition he4 : nucleus := Nuc 2 4.
Definition c12 : nucleus := Nuc 6 12.
Definition n13 : nucleus := Nuc 7 13.
Definition o16 : nucleus := Nuc 8 16.

Global Instance nucleus_NucleusT : NucleusT nucleus := {|
  Nucleus_ltb := nucleus_ltb;
  raw := nucleus_raw;
  A := nuc_A;
  Nucleus_p := p;
|}.

Record rate := Rate {
  r_reactants : list nucleus;
  r_products : list nucleus;
  r_prefactor : Qc;
  r_dens_exp : Z;
  r_chapter : pyval;
  r_fname : string;
  r_slope : Qc;
}.

Global Instance rate_eq_dec : EqDecision rate.
Proof. solve_decision. Defined.

Global Instance rate_RateT : RateT Qc nucleus rate := {|
  reactants := r_reactants;
  products := r_products;
  prefactor := r_prefactor;
  dens_exp := r_dens_exp;
  chapter := r_chapter;
  fname := r_fname;
  Rate_eval r T := (r_slope r * T)%Qc;
|}.

(** The integer part of the base-10 logarithm of a rational that is at
    least 1 (0 below 1): it stands for [math.log10] in the examples. *)
Fixpoint digits_below (fuel : nat) (n : Z) : Z :=
  match fuel with
  | O => 0
  | S fuel' => if n <? 10 then 0 else 1 + digits_below fuel' (n / 10)
  end.

Definition floor_log10 (x : Qc) : Qc :=
  let n := Qnum (this x) / Zpos (Qden (this x)) in
  Q2Qc (inject_Z (digits_below (Z.to_nat n) n)).

Global Instance sample_PyMath : PyMath Qc := Qc_PyMath floor_log10.

(** Decimal literals as exact rationals. *)
Definition q (m : Z) (k : nat) : Qc := py_lit m k.

(** p + p -> d, C12 + p -> N13, C12 + He4 -> O16 and a tabulated decay
    N13 -> C12 + p under the file name of the second. *)
Definition pp : rate := Rate [p; p] [d] (q 1 0) 1 (PyInt 1) "p_p__d" (q 3 0).
Definition c12_pg : rate :=
  Rate [c12; p] [n13] (q 2 0) 1 (PyInt 4) "c12_p__n13" (q 1 0).
Definition c12_ag : rate :=
  Rate [c12; he4] [o16] (q 5 0) 1 (PyInt 4) "c12_he4__o16" (q 1 0).
Definition n13_tab : rate :=
  Rate [n13] [c12; p] (q 1 0) 0 (PyStr "t") "c12_p__n13" (q 2 0).

(** The four rates, in the order the libraries give them. *)
Definition network : list rate := [pp; n13_tab; c12_pg; c12_ag].

(** What [__init__] makes of them. *)
Definition collection : RateCollection nucleus rate := {|
  rates := [pp; c12_pg; c12_ag; n13_tab];
  unique_nuclei := [p; d; he4; c12; n13; o16];
  nuclei_consumed :=
    [(p, [pp; c12_pg]); (d, []); (he4, [c12_ag]); (c12, [c12_pg; c12_ag]);
     (n13, [n13_tab]); (o16, [])];
  nuclei_produced :=
    [(p, [n13_tab]); (d, [pp]); (he4, []); (c12, [n13_tab]);
     (n13, [c12_pg]); (o16, [c12_ag])];
  tabular_rates := [3%nat];
  reaclib_rates := [0%nat; 1%nat; 2%nat];
|}.

(** Mass fractions 0.5, 0.1, 0.4 and 0 for p, He4, C12 and N13. *)
Definition composition : Composition Qc nucleus :=
  {| X := [(p, q 5 1); (he4, q 1 1); (c12, q 4 1); (n13, q 0 0)] |}.

Definition world : World Qc nucleus rate :=
  {| w_self := collection; w_composition := composition |}.

(** A composition over four nuclei as the constructor leaves it. *)
Definition four_nuclei : Composition Qc nucleus :=
  {| X := [(c12, small_default); (p, small_default);
           (he4, small_default); (d, small_default)] |}.

(** A rate with no reactant, and one whose density exponent is
    negative. *)
Definition no_reactant : rate :=
  Rate [] [p] (q 1 0) 0 (PyInt 1) "__p" (q 1 0).
Definition inverse_density : rate :=
  Rate [p] [d] (q 1 0) (-1) (PyInt 1) "p__d" (q 1 0).

(** p + p -> d with prefactor 1 and density exponent 2, and protons of
    mass fraction 0.5. *)
Definition pp_squared : rate :=
  Rate [p; p] [d] (q 1 0) 2 (PyInt 1) "p_p__d" (q 3 0).
Definition half_protons : Composition Qc nucleus := {| X := [(p, q 5 1)] |}.

(** The four nuclei of [four_nuclei] with binary64 mass fractions. *)
Definition four_nuclei_binary64 : Composition float nucleus :=
  {| X := [(c12, small_default); (p, small_default);
           (he4, small_default); (d, small_default)] |}.

(** Mass fractions 0.1 and 0.3 as binary64 floats. *)
Definition hydrogen_helium : Composition float nucleus :=
  {| X := [(p, py_lit 1 1); (he4, py_lit 3 1)] |}.

(** A sequence of nuclei that names the proton twice. *)
Definition repeated_nuclei : list (pyobj nucleus) :=
  [ONucleus p; ONucleus he4; ONucleus p].

(** Mass fractions 1.0 and -1.0 as binary64 floats. *)
Definition balanced : Composition float nucleus :=
  {| X := [(p, f_of_int 1); (he4, f_of_int (-1))] |}.

(** A composition over five nuclei as the constructor leaves it. *)
Definition five_nuclei : Composition Qc nucleus :=
  {| X := [(c12, small_default); (p, small_default); (he4, small_default);
           (d, small_default); (o16, small_default)] |}.

(** One without helium. *)
Definition no_helium : Composition Qc nucleus :=
  {| X := [(p, small_default); (c12, small_default); (d, small_default)] |}.

(** The concrete network with a composition that holds protons only. *)
Definition protons_only : World Qc nucleus rate :=
  {| w_self := collection; w_composition := half_protons |}.

Global Instance nucleus_NucleusStr : NucleusStr nucleus := nucleus_raw.
Global Instance rate_RateStr : RateStr rate := r_fname.

End Sample.

(** * Properties of the model *)

(** ** Tactics *)

(** A decidable statement, by evaluation. *)
Ltac by_evaluation := apply (bool_decide_unpack _); vm_compute; exact I.

(** Case analysis on membership in a list that is written out. *)
Ltac in_cases H :=
  repeat (apply elem_of_cons in H as [->|H]); [..|by apply elem_of_nil in H].

(** Membership in a list that is written out. *)
Ltac solve_elem_of := solve [repeat first [by left | right]].

(** ** Results and the state monad *)

Lemma rmap_cons {A B} (f : A → result B) x l :
  rmap f (x :: l) = f x ≫= λ y, rmap f l ≫= λ ys, Ok (y :: ys).
Proof. done. Qed.

Lemma rmap_Ok {A B} (f : A → result B) (g : A → B) l :
  (∀ x, x ∈ l → f x = Ok (g x)) → rmap f l = Ok (g <$> l).
Proof.
  induction l as [|x l IH]; intros Hf; [done|].
  cbn. rewrite Hf by left. cbn. rewrite IH; [done|].
  intros y Hy. apply Hf. by right.
Qed.

Lemma rconcat_map_Ok {A B} (f : A → result (list B)) (g : A → list B) l :
  (∀ x, x ∈ l → f x = Ok (g x)) → rconcat_map f l = Ok (l ≫= g).
Proof.
  intros Hf. unfold rconcat_map. rewrite (rmap_Ok f g) by done. cbn.
  f_equal. induction l; cbn; [done|]. f_equal. apply IHl.
  intros y Hy. apply Hf. by right.
Qed.

Lemma bind_get_run {S B} (k : S → M S B) s : (get ≫= k) s = k s s.
Proof. done. Qed.

Lemma bind_lift_run {S A B} (r : result A) (k : A → M S B) s :
  (lift r ≫= k) s
  = match r with Ok a => k a s | Raise e => (Raise e, s) end.
Proof. by destruct r. Qed.

Lemma bind_run {S A B} (m : M S A) (k : A → M S B) s :
  (m ≫= k) s
  = match m s with (Ok a, s') => k a s' | (Raise e, s') => (Raise e, s') end.
Proof. done. Qed.

Lemma for_each_cons {S A} (x : A) (l : list A) (body : A → M S unit) s :
  for_each (x :: l) body s
  = match body x s with
    | (Ok _, s') => for_each l body s'
    | (Raise e, s') => (Raise e, s')
    end.
Proof. done. Qed.

(** ** Dictionaries *)

Section dict_facts.
Context {K V : Type} `{EqDecision K}.
Implicit Types (d : dict K V) (k : K) (v : V).

Lemma dict_get_is_Some k d : is_Some (dict_get k d) ↔ k ∈ dict_keys d.
Proof.
  unfold dict_keys. induction d as [|[k' v'] d IH]; cbn.
  - split; [by intros [? ?]|by intros ?%elem_of_nil].
  - case_decide; subst.
    + split; [left|eauto].
    + rewrite IH, elem_of_cons. split; [by right|]. by intros [?|?].
Qed.

Lemma dict_get_set k k' v d :
  dict_get k (dict_set k' v d) = if decide (k = k') then Some v else dict_get k d.
Proof.
  induction d as [|[k1 v1] d IH]; cbn.
  - by case_decide.
  - destruct (decide (k' = k1)) as [->|]; cbn; repeat case_decide; congruence.
Qed.

Lemma dict_keys_set_fresh k v d :
  k ∉ dict_keys d → dict_set k v d = d ++ [(k, v)].
Proof.
  unfold dict_keys. induction d as [|[k1 v1] d IH]; cbn; [done|].
  intros Hk. apply not_elem_of_cons in Hk as [? ?].
  case_decide; [done|]. f_equal. by apply IH.
Qed.

Lemma dict_set_middle pre k v v' suf :
  k ∉ dict_keys pre →
  dict_set k v' (pre ++ (k, v) :: suf) = pre ++ (k, v') :: suf.
Proof.
  unfold dict_keys. induction pre as [|[k1 v1] pre IH]; cbn.
  - intros _. by case_decide.
  - intros Hk. apply not_elem_of_cons in Hk as [? ?].
    case_decide; [done|]. f_equal. by apply IH.
Qed.

Lemma dict_get_middle pre k v suf :
  k ∉ dict_keys pre → dict_get k (pre ++ (k, v) :: suf) = Some v.
Proof.
  unfold dict_keys. induction pre as [|[k1 v1] pre IH]; cbn.
  - intros _. by case_decide.
  - intros Hk. apply not_elem_of_cons in Hk as [? ?].
    case_decide; [done|]. by apply IH.
Qed.

Lemma dict_getitem_middle pre k v suf :
  k ∉ dict_keys pre → dict_getitem k (pre ++ (k, v) :: suf) = Ok v.
Proof. intros Hk. unfold dict_getitem. by rewrite dict_get_middle. Qed.

(** A dictionary filled key by key with a value that depends on the key. *)
Lemma dict_get_foldl_set (f : K → V) (l : list K) d k :
  dict_get k (foldl (λ d x, dict_set x (f x) d) d l)
  = if decide (k ∈ l) then Some (f k) else dict_get k d.
Proof.
  revert d. induction l as [|x l IH]; intros d; cbn.
  - case_decide as Hk; [by apply elem_of_nil in Hk|done].
  - rewrite IH, dict_get_set.
    destruct (decide (k ∈ l)) as [Hk|Hk].
    + rewrite decide_True by (by right). done.
    + destruct (decide (k = x)) as [->|Hne].
      * rewrite decide_True by left. done.
      * rewrite decide_False; [done|]. by intros [|]%elem_of_cons.
Qed.

Lemma dict_get_fmap_val {W} (g : K → V → W) d k :
  dict_get k ((λ kv, (kv.1, g kv.1 kv.2)) <$> d) = g k <$> dict_get k d.
Proof.
  induction d as [|[k1 v1] d IH]; cbn; [done|].
  case_decide; subst; [done|apply IH].
Qed.

End dict_facts.

(** A comprehension over the items of a dictionary builds the dictionary
    of the mapped items. *)
Lemma foldl_dict_set_items {K V W} `{EqDecision K} (g : K → V → W)
    (pre : dict K W) (d : dict K V) :
  NoDup (dict_keys pre ++ dict_keys d) →
  foldl (λ acc kv, dict_set kv.1 (g kv.1 kv.2) acc) pre d
  = pre ++ ((λ kv, (kv.1, g kv.1 kv.2)) <$> d).
Proof.
  revert pre. induction d as [|[k v] d IH]; intros pre Hnd; cbn.
  - by rewrite app_nil_r.
  - cbn in Hnd. apply NoDup_app in Hnd as (Hpre & Hdisj & Hd).
    apply NoDup_cons in Hd as [Hk Hd].
    rewrite dict_keys_set_fresh by (intros ?; eapply Hdisj; [done|left]).
    rewrite IH.
    + by rewrite <-app_assoc.
    + unfold dict_keys in *. rewrite fmap_app. cbn.
      apply NoDup_app. split_and!; [|  |done].
      * apply NoDup_app. split_and!; [done| |apply NoDup_singleton].
        intros x Hx ->%list_elem_of_singleton. eapply Hdisj; [done|left].
      * intros x [Hx| ->%list_elem_of_singleton]%elem_of_app Hx'; [|done].
        eapply Hdisj; [done|by right].
Qed.

(** ** [sorted] *)

Section sorted_facts.
Context {A : Type} (ltb : A → A → bool).

Lemma sorted_insert_Permutation x l : sorted_insert ltb x l ≡ₚ x :: l.
Proof.
  induction l as [|y l IH]; cbn; [done|].
  destruct (ltb y x); [|done]. rewrite IH. apply Permutation_swap.
Qed.

Lemma py_sorted_Permutation l : py_sorted ltb l ≡ₚ l.
Proof.
  induction l as [|x l IH]; cbn; [done|].
  by rewrite sorted_insert_Permutation, IH.
Qed.

Lemma elem_of_py_sorted x l : x ∈ py_sorted ltb l ↔ x ∈ l.
Proof. by rewrite py_sorted_Permutation. Qed.

Section strict_total.
Hypothesis ltb_trans : ∀ x y z, ltb x y → ltb y z → ltb x z.
Hypothesis ltb_total : ∀ x y, x ≠ y → ltb x y ∨ ltb y x.

Lemma sorted_insert_sorted x l :
  x ∉ l → StronglySorted (λ a b, ltb a b) l →
  StronglySorted (λ a b, ltb a b) (sorted_insert ltb x l).
Proof using ltb_trans ltb_total.
  induction l as [|y l IH]; cbn; intros Hx Hl.
  - repeat constructor.
  - apply not_elem_of_cons in Hx as [Hxy Hx].
    apply StronglySorted_inv in Hl as [Hl Hy].
    destruct (ltb y x) eqn:Hyx.
    + constructor; [by apply IH|].
      rewrite sorted_insert_Permutation. constructor; [|done].
      by rewrite Hyx.
    + assert (ltb x y) as Hlt.
      { destruct (ltb_total x y Hxy) as [|Hc]; [done|].
        by rewrite Hyx in Hc. }
      constructor; [by constructor|].
      constructor; [done|].
      eapply Forall_impl; [done|]. intros z. by apply ltb_trans.
Qed.

Lemma py_sorted_sorted l :
  NoDup l → StronglySorted (λ a b, ltb a b) (py_sorted ltb l).
Proof using ltb_trans ltb_total.
  induction l as [|x l IH]; cbn; intros Hl; [constructor|].
  apply NoDup_cons in Hl as [Hx Hl].
  apply sorted_insert_sorted; [|by apply IH].
  intros Hin. apply Hx. by apply elem_of_py_sorted.
Qed.

End strict_total.
End sorted_facts.

Lemma sorted_insert_bool_key {A} (key : A → bool) x (l0 l1 : list A) :
  Forall (λ a, ¬ key a) l0 → Forall (λ a, key a) l1 →
  sorted_insert (λ a b, bool_ltb (key a) (key b)) x (l0 ++ l1)
  = if key x then l0 ++ x :: l1 else x :: l0 ++ l1.
Proof.
  intros H0 H1. destruct (key x) eqn:Hx.
  - induction H0 as [|y l0 Hy _ IH]; cbn.
    + destruct H1 as [|y l1 Hy _]; cbn; [done|].
      unfold bool_ltb. destruct (key y); [done|by destruct Hy].
    + unfold bool_ltb at 1. rewrite Hx.
      destruct (key y); [by destruct Hy|]. cbn. by rewrite IH.
  - destruct (l0 ++ l1) as [|y l]; cbn; [done|].
    unfold bool_ltb. by rewrite Hx, andb_false_r.
Qed.

(** [sorted] on a Boolean key is the stable partition: the elements whose
    key is false, then those whose key is true, each group in its order. *)
Lemma py_sorted_bool_key {A} (key : A → bool) (l : list A) :
  py_sorted (λ a b, bool_ltb (key a) (key b)) l
  = filter (λ a, ¬ key a) l ++ filter (λ a, key a) l.
Proof.
  induction l as [|x l IH]; [done|].
  change (py_sorted _ (x :: l)) with
    (sorted_insert (λ a b, bool_ltb (key a) (key b)) x
       (py_sorted (λ a b, bool_ltb (key a) (key b)) l)).
  rewrite IH, sorted_insert_bool_key.
  - rewrite !filter_cons.
    destruct (key x); cbn; repeat case_decide; try done; exfalso; tauto.
  - apply Forall_forall. by intros a [? _]%list_elem_of_filter.
  - apply Forall_forall. by intros a [? _]%list_elem_of_filter.
Qed.

(** ** Construction of a [RateCollection] *)

Section init_facts.
Context {F Nucleus Rate : Type}.
Context `{!PyFloat F, !PyMath F, !NucleusT Nucleus, !RateT F Nucleus Rate}.
Implicit Types (r : Rate) (n : Nucleus) (rs : list Rate).
Implicit Types (rc : RateCollection Nucleus Rate).

Lemma elem_of_gathered u0 rs n :
  n ∈ gathered u0 rs ↔
  n ∈ u0 ∨ ∃ r, r ∈ rs ∧ (n ∈ reactants r ∨ n ∈ products r).
Proof.
  unfold gathered. revert u0. induction rs as [|r rs IH]; intros u0; cbn.
  - split; [by left|]. intros [?|(r & ?%elem_of_nil & _)]; done.
  - rewrite IH. unfold py_set.
    rewrite elem_of_remove_dups, elem_of_app, elem_of_remove_dups, elem_of_app.
    split.
    + intros [[?|?]|(r' & ? & ?)]; [by left| |].
      * right. exists r. split; [left|done].
      * right. exists r'. split; [by right|done].
    + intros [?|(r' & [->|?]%elem_of_cons & ?)]; [by left; left| |].
      * left. by right.
      * right. by exists r'.
Qed.

Lemma NoDup_gathered u0 rs : NoDup u0 → NoDup (gathered u0 rs).
Proof.
  unfold gathered. revert u0. induction rs as [|r rs IH]; intros u0 ?; cbn; [done|].
  apply IH. apply NoDup_remove_dups.
Qed.

Lemma classify_is_Ok acc l :
  is_Ok (classify acc l) ↔ Forall (λ nr, chapter_known nr.2) l.
Proof.
  unfold classify, chapter_known.
  revert acc. induction l as [|[n r] l IH]; intros [tab reac]; cbn.
  - by rewrite Forall_nil.
  - rewrite Forall_cons. cbn.
    destruct (is_tabular r); cbn.
    { rewrite IH. intuition. }
    destruct (chapter_is_int r); cbn.
    { rewrite IH. intuition. }
    intuition.
Qed.

Lemma RateCollection_init_Ok rs rc :
  RateCollection_init rs = Ok rc →
  rates rc = py_sorted (λ a b, bool_ltb (is_tabular a) (is_tabular b)) rs ∧
  unique_nuclei rc = py_sorted Nucleus_ltb (gathered [] rs) ∧
  nuclei_consumed rc =
    foldl (λ d n, dict_set n (filter (λ r, n ∈ reactants r) rs) d) []
          (unique_nuclei rc) ∧
  nuclei_produced rc =
    foldl (λ d n, dict_set n (filter (λ r, n ∈ products r) rs) d) []
          (unique_nuclei rc).
Proof.
  unfold RateCollection_init. cbn [app].
  destruct (classify _ _) as [[tab reac]|]; cbn; [|done].
  by intros [= <-].
Qed.

Lemma RateCollection_init_is_Ok rs :
  is_Ok (RateCollection_init rs) ↔ Forall chapter_known rs.
Proof.
  unfold RateCollection_init. cbn [app].
  match goal with |- context [classify ?a ?l] =>
    pose proof (classify_is_Ok a l) as Hc;
    destruct (classify a l) as [[tab reac]|] end; cbn in *.
  - split; [intros _|done]. pose proof (proj1 Hc I) as Hall.
    apply Forall_forall. intros r Hr.
    rewrite Forall_forall in Hall.
    assert (r ∈ py_sorted (λ a b, bool_ltb (is_tabular a) (is_tabular b)) rs)
      as Hr' by (by apply elem_of_py_sorted).
    apply list_elem_of_lookup in Hr' as [i Hi].
    apply (Hall (i, r)). unfold enumerate.
    by apply (elem_of_lookup_imap_2 (λ j x, (j, x))).
  - split; [done|]. intros Hall. apply Hc.
    apply Forall_forall. intros [i r] Hir. cbn.
    unfold enumerate in Hir. apply elem_of_lookup_imap in Hir as (j & y & [= -> ->] & Hy).
    rewrite Forall_forall in Hall. apply Hall.
    eapply elem_of_py_sorted. by eapply list_elem_of_lookup_2.
Qed.

Lemma rates_Permutation rs rc :
  RateCollection_init rs = Ok rc → rates rc ≡ₚ rs.
Proof.
  intros (-> & _)%RateCollection_init_Ok. apply py_sorted_Permutation.
Qed.

End init_facts.

Lemma length_py_set_NoDup {A} `{EqDecision A} (l : list A) :
  length (py_set l) = length l ↔ NoDup l.
Proof.
  unfold py_set. induction l as [|x l IH]; cbn.
  - split; [constructor|done].
  - assert (length (remove_dups l) ≤ length l)%nat as Hle.
    { clear. induction l as [|y l IH]; cbn; [done|]. case_decide; cbn; lia. }
    rewrite NoDup_cons. case_decide as Hx; cbn.
    + split; [lia|]. by intros [? _].
    + rewrite <-IH. split; [intros [=]; done|intros [_ ->]; done].
Qed.

Section claims.
Context {F Nucleus Rate : Type}.
Context `{!PyFloat F, !PyMath F, !NucleusT Nucleus, !RateT F Nucleus Rate}.
Implicit Types (r : Rate) (n : Nucleus) (rs : list Rate).
Implicit Types (rc : RateCollection Nucleus Rate).

(** C2: the [unique_nuclei] of a constructed collection are in strictly
    ascending [Nucleus] order, hold no nucleus twice, and are exactly the
    nuclei that occur among the reactants or products of a held rate. *)
Theorem unique_nuclei_sorted_union `{!NucleusOrder Nucleus} rs rc :
  RateCollection_init rs = Ok rc →
  StronglySorted (λ a b, Nucleus_ltb a b) (unique_nuclei rc) ∧
  NoDup (unique_nuclei rc) ∧
  ∀ n, n ∈ unique_nuclei rc ↔
       ∃ r, r ∈ rates rc ∧ (n ∈ reactants r ∨ n ∈ products r).
Proof.
  intros Hinit. pose proof (rates_Permutation _ _ Hinit) as Hperm.
  apply RateCollection_init_Ok in Hinit as (_ & -> & _).
  assert (NoDup (gathered [] rs)) as Hnd by apply NoDup_gathered, NoDup_nil_2.
  split_and!.
  - apply py_sorted_sorted; [apply Nucleus_lt_trans|apply Nucleus_lt_total|done].
  - by rewrite py_sorted_Permutation.
  - intros n. rewrite elem_of_py_sorted, elem_of_gathered.
    setoid_rewrite Hperm. split; [|by right].
    by intros [?%elem_of_nil|?].
Qed.

(** C3: for a nucleus of [unique_nuclei] and a held rate, the rate is in
    [nuclei_consumed] of the nucleus exactly when the nucleus is among its
    reactants, and in [nuclei_produced] exactly when it is among its
    products. *)
Theorem nuclei_index_complete rs rc n r :
  RateCollection_init rs = Ok rc →
  n ∈ unique_nuclei rc → r ∈ rates rc →
  ∃ consumed produced,
    dict_get n (nuclei_consumed rc) = Some consumed ∧
    dict_get n (nuclei_produced rc) = Some produced ∧
    (r ∈ consumed ↔ n ∈ reactants r) ∧
    (r ∈ produced ↔ n ∈ products r).
Proof.
  intros Hinit Hn Hr. rewrite (rates_Permutation _ _ Hinit) in Hr.
  apply RateCollection_init_Ok in Hinit as (_ & _ & Hc & Hp).
  exists (filter (λ r, n ∈ reactants r) rs), (filter (λ r, n ∈ products r) rs).
  rewrite Hc, Hp.
  rewrite (dict_get_foldl_set (λ n, filter (λ r, n ∈ reactants r) rs)).
  rewrite (dict_get_foldl_set (λ n, filter (λ r, n ∈ products r) rs)).
  rewrite !decide_True by done.
  rewrite !list_elem_of_filter. tauto.
Qed.

(** C4: the stored rates are the assembled rates with those whose chapter
    is not ['t'] first and those whose chapter is ['t'] after them, each
    group in the order it had; so a rate of the first group stands before
    every rate of the second. *)
Theorem rates_stable_partition rs rc :
  RateCollection_init rs = Ok rc →
  rates rc = filter (λ r, chapter r ≠ PyStr "t") rs
             ++ filter (λ r, chapter r = PyStr "t") rs ∧
  ∀ i j a b,
    rates rc !! i = Some a → rates rc !! j = Some b →
    chapter a ≠ PyStr "t" → chapter b = PyStr "t" → (i < j)%nat.
Proof.
  intros (Hr & _)%RateCollection_init_Ok.
  assert (rates rc = filter (λ r, chapter r ≠ PyStr "t") rs
                     ++ filter (λ r, chapter r = PyStr "t") rs) as Heq.
  { rewrite Hr, py_sorted_bool_key. f_equal; apply list_filter_iff; intros r;
      unfold is_tabular; by rewrite bool_decide_spec. }
  split; [done|]. intros i j a b Hi Hj Ha Hb. rewrite Heq in Hi, Hj.
  apply lookup_app_Some in Hi as [Hi|[_ Hi]].
  - apply lookup_lt_Some in Hi as Hlt.
    apply lookup_app_Some in Hj as [Hj|[Hge _]]; [|lia].
    apply list_elem_of_lookup_2, list_elem_of_filter in Hj as [Hj _]. done.
  - apply list_elem_of_lookup_2, list_elem_of_filter in Hi as [Hi _]. done.
Qed.

(** C10: [evaluate_rates] returns [self] and [composition] as it received
    them, whether it returns the rates or raises: the stored rates, the
    unique nuclei, both indices, both position lists and the mass
    fractions are unchanged; [get_molar] leaves the composition as it
    was. *)
Theorem evaluate_rates_frame rho T (w : World F Nucleus Rate) :
  (evaluate_rates rho T w).2 = w ∧
  rates (w_self (evaluate_rates rho T w).2) = rates (w_self w) ∧
  unique_nuclei (w_self (evaluate_rates rho T w).2) = unique_nuclei (w_self w) ∧
  nuclei_consumed (w_self (evaluate_rates rho T w).2) = nuclei_consumed (w_self w) ∧
  nuclei_produced (w_self (evaluate_rates rho T w).2) = nuclei_produced (w_self w) ∧
  reaclib_rates (w_self (evaluate_rates rho T w).2) = reaclib_rates (w_self w) ∧
  tabular_rates (w_self (evaluate_rates rho T w).2) = tabular_rates (w_self w) ∧
  X (w_composition (evaluate_rates rho T w).2) = X (w_composition w) ∧
  ∀ c : Composition F Nucleus, (get_molar c).2 = c.
Proof.
  assert (∀ c : Composition F Nucleus, (get_molar c).2 = c) as Hmolar.
  { intros c. unfold get_molar, mbind, M_bind, bind, get, lift. done. }
  assert ((evaluate_rates rho T w).2 = w) as ->.
  { unfold evaluate_rates, mbind, M_bind, bind, on_composition, get, lift.
    specialize (Hmolar (w_composition w)).
    destruct (get_molar (w_composition w)) as [[ys|e] c]; cbn in *; subst c;
      by destruct w. }
  done.
Qed.

End claims.

(** C5: giving the rates other file names, all the same one included,
    changes neither what construction returns nor what [evaluate_rates]
    returns; [write_network] raises [AssertionError] when two held rates
    share a file name and otherwise returns what the network writer
    returns, so with the writer of this class it fails exactly when the
    file names are not pairwise distinct. *)
Theorem fname_checked_only_by_write_network {F Nucleus Rate : Type}
    `{!PyFloat F, !PyMath F, !NucleusT Nucleus}
    (R : RateT F Nucleus Rate) (name : Rate → string) :
  (∀ rs, RateCollection_init (RateT0 := RateT_rename R name) rs
         = RateCollection_init (RateT0 := R) rs) ∧
  (∀ rho T w, evaluate_rates (RateT0 := RateT_rename R name) rho T w
              = evaluate_rates (RateT0 := R) rho T w) ∧
  (∀ O (writer : RateCollection Nucleus Rate → result O) rc,
     write_network_with (RateT0 := R) writer rc
     = if decide (NoDup (fname <$> rates rc)) then writer rc
       else Raise AssertionError) ∧
  (∀ rc, is_Ok (write_network (RateT0 := R) rc) ↔ NoDup (fname <$> rates rc)).
Proof.
  assert (∀ O (writer : RateCollection Nucleus Rate → result O) rc,
     write_network_with (RateT0 := R) writer rc
     = if decide (NoDup (fname <$> rates rc)) then writer rc
       else Raise AssertionError) as Hw.
  { intros O writer rc. unfold write_network_with, _distinguishable_rates.
    rewrite <-(length_fmap fname (rates rc)).
    case_decide as Hnd.
    - by rewrite bool_decide_true by (by apply length_py_set_NoDup).
    - by rewrite bool_decide_false by (by rewrite length_py_set_NoDup). }
  split_and!; [done|done|done|].
  intros rc. unfold write_network. rewrite Hw. by case_decide.
Qed.

(** ** The loops of [Composition] *)

Section composition_facts.
Context {F Nucleus : Type} `{!PyFloat F, !NucleusT Nucleus}.
Implicit Types (c : Composition F Nucleus) (k : Nucleus) (d : dict Nucleus F).

Lemma rmap_getitem_keys d :
  NoDup (dict_keys d) →
  rmap (λ k, dict_getitem k d) (dict_keys d) = Ok (dict_values d).
Proof.
  intros Hnd.
  assert (∀ pre suf, d = pre ++ suf →
    rmap (λ k, dict_getitem k d) (dict_keys suf) = Ok (dict_values suf)) as H.
  { intros pre suf. revert pre. induction suf as [|[k v] suf IH]; intros pre ->; [done|].
    change (dict_keys ((k, v) :: suf)) with (k :: dict_keys suf).
    rewrite rmap_cons, dict_getitem_middle.
    - rewrite (IH (pre ++ [(k, v)])) by (by rewrite <-app_assoc). done.
    - unfold dict_keys in *. rewrite fmap_app in Hnd.
      apply NoDup_app in Hnd as (_ & Hd & _). intros Hk. apply (Hd _ Hk). left. }
  apply (H []). done.
Qed.

Lemma update_item_run (g : F → result F) k d :
  (x ← X_getitem k; y ← lift (g x); X_setitem k y) {| X := d |}
  = match dict_getitem k d ≫= g with
    | Ok y => (Ok tt, {| X := dict_set k y d |})
    | Raise e => (Raise e, {| X := d |})
    end.
Proof.
  cbv [mbind M_bind bind X_getitem X_setitem get put lift result_bind rbind].
  cbn [X]. destruct (dict_getitem k d) as [x|]; [|done]. by destruct (g x).
Qed.

Lemma X_setitem_run k v d :
  X_setitem k v {| X := d |} = (Ok tt, {| X := dict_set k v d |}).
Proof. done. Qed.

Lemma not_elem_of_keys_prefix k (v : F) (pre suf : dict Nucleus F) :
  NoDup (dict_keys (pre ++ (k, v) :: suf)) → k ∉ dict_keys pre.
Proof.
  unfold dict_keys. rewrite fmap_app. intros (_ & Hd & _)%NoDup_app Hk.
  apply (Hd _ Hk). left.
Qed.

(** A loop over the keys that replaces each value by a function of the
    key and the value. *)
Lemma for_each_update (g : Nucleus → F → result F) (h : Nucleus → F → F) pre suf :
  NoDup (dict_keys (pre ++ suf)) →
  (∀ k v, (k, v) ∈ suf → g k v = Ok (h k v)) →
  for_each (dict_keys suf)
    (λ k, x ← X_getitem k; y ← lift (g k x); X_setitem k y)
    {| X := pre ++ suf |}
  = (Ok tt, {| X := pre ++ ((λ kv, (kv.1, h kv.1 kv.2)) <$> suf) |}).
Proof.
  revert pre. induction suf as [|[k v] suf IH]; intros pre Hnd Hg; [done|].
  change (dict_keys ((k, v) :: suf)) with (k :: dict_keys suf).
  rewrite for_each_cons, (update_item_run (g k)).
  rewrite dict_getitem_middle by (by eapply not_elem_of_keys_prefix).
  cbn [mbind result_bind rbind]. rewrite (Hg k v) by left.
  rewrite dict_set_middle by (by eapply not_elem_of_keys_prefix).
  specialize (IH (pre ++ [(k, h k v)])). rewrite <-!app_assoc in IH. cbn [app] in IH.
  rewrite IH; [done| |].
  - unfold dict_keys in *. rewrite !fmap_app in *. done.
  - intros k' v' Hin. apply Hg. by right.
Qed.

Lemma for_each_ext {S B} (l : list B) (f g : B → M S unit) :
  (∀ x, x ∈ l → f x = g x) → for_each l f = for_each l g.
Proof.
  induction l as [|x l IH]; intros Hfg; cbn; [done|].
  rewrite Hfg by left. rewrite IH; [done|]. intros y ?. apply Hfg. by right.
Qed.

(** A loop over the keys that assigns each key a function of the key. *)
Lemma for_each_assign (h : Nucleus → F) pre suf :
  NoDup (dict_keys (pre ++ suf)) →
  for_each (dict_keys suf) (λ k, X_setitem k (h k)) {| X := pre ++ suf |}
  = (Ok tt, {| X := pre ++ ((λ kv, (kv.1, h kv.1)) <$> suf) |}).
Proof.
  revert pre. induction suf as [|[k v] suf IH]; intros pre Hnd; [done|].
  change (dict_keys ((k, v) :: suf)) with (k :: dict_keys suf).
  rewrite for_each_cons, X_setitem_run.
  rewrite dict_set_middle by (by eapply not_elem_of_keys_prefix).
  specialize (IH (pre ++ [(k, h k)])). rewrite <-!app_assoc in IH. cbn [app] in IH.
  rewrite IH; [done|].
  unfold dict_keys in *. rewrite !fmap_app in *. done.
Qed.

Lemma dict_keys_fmap_val {W} (g : Nucleus → F → W) d :
  dict_keys ((λ kv, (kv.1, g kv.1 kv.2)) <$> d) = dict_keys d.
Proof.
  unfold dict_keys. rewrite <-list_fmap_compose. by apply list_fmap_ext.
Qed.

Lemma dict_values_fmap_val {W} (g : F → W) d :
  dict_values ((λ kv, (kv.1, g kv.2)) <$> d) = g <$> dict_values d.
Proof.
  unfold dict_values. rewrite <-!list_fmap_compose. by apply list_fmap_ext.
Qed.

(** [normalize] on a composition whose sum is not zero divides every mass
    fraction by the sum. *)
Lemma normalize_run c :
  NoDup (dict_keys (X c)) →
  f_eqb (py_sum (dict_values (X c))) (f_of_int 0) = false →
  normalize c
  = (Ok tt, {| X := (λ kv, (kv.1, f_div kv.2 (py_sum (dict_values (X c)))))
                    <$> X c |}).
Proof.
  intros Hnd Hs. destruct c as [d]. cbn [X] in *.
  unfold normalize. rewrite bind_get_run. cbn [X].
  rewrite bind_lift_run, rmap_getitem_keys by done.
  apply (for_each_update (λ _ x, py_truediv x (py_sum (dict_values d)))
           (λ _ x, f_div x (py_sum (dict_values d))) [] d); [done|].
  intros k v _. unfold py_truediv. by rewrite Hs.
Qed.

(** [normalize] on a composition with keys whose sum is zero raises at the
    first key and changes nothing; on one with no key it does nothing. *)
Lemma normalize_zero c :
  NoDup (dict_keys (X c)) →
  f_eqb (py_sum (dict_values (X c))) (f_of_int 0) = true →
  normalize c = (if decide (X c = []) then Ok tt else Raise ZeroDivisionError, c).
Proof.
  intros Hnd Hs. destruct c as [d]. cbn [X] in *.
  unfold normalize. rewrite bind_get_run. cbn [X].
  rewrite bind_lift_run, rmap_getitem_keys by done.
  destruct d as [|[k v] d]; [done|].
  change (dict_keys ((k, v) :: d)) with (k :: dict_keys d).
  rewrite for_each_cons, (update_item_run (λ x, py_truediv x _)).
  rewrite (dict_getitem_middle [] k v d (not_elem_of_nil _)
             : dict_getitem k ((k, v) :: d) = _).
  cbn [mbind result_bind rbind]. unfold py_truediv. by rewrite Hs.
Qed.

End composition_facts.

(** ** Exact arithmetic *)

Lemma Qc_f_eqb_false (x y : Qc) : x ≠ y → f_eqb x y = false.
Proof. intros. by apply bool_decide_eq_false. Qed.

Lemma Qc_of_int_inj (z1 z2 : Z) : f_of_int (F := Qc) z1 = f_of_int z2 → z1 = z2.
Proof.
  cbn. intros H%Q2Qc_eq_iff. unfold Qeq in H. cbn in H. lia.
Qed.

Lemma Qc_foldl_plus (a : Qc) l : foldl Qcplus a l = (a + py_sum l)%Qc.
Proof.
  unfold py_sum. cbn [f_add f_of_int Qc_PyFloat].
  revert a. induction l as [|x l IH]; intros a; cbn.
  - change (Q2Qc (inject_Z 0)) with 0%Qc. ring.
  - rewrite (IH (a + x)%Qc), (IH (Q2Qc (inject_Z 0) + x)%Qc).
    change (Q2Qc (inject_Z 0)) with 0%Qc. ring.
Qed.

Lemma Qc_py_sum_cons (x : Qc) l : py_sum (x :: l) = (x + py_sum l)%Qc.
Proof.
  unfold py_sum at 1. cbn [foldl f_add f_of_int Qc_PyFloat].
  rewrite Qc_foldl_plus. change (Q2Qc (inject_Z 0)) with 0%Qc. ring.
Qed.

Lemma Qc_py_sum_Permutation (l1 l2 : list Qc) :
  l1 ≡ₚ l2 → py_sum l1 = py_sum l2.
Proof.
  induction 1 as [|x l1 l2 _ IH|x y l|l1 l2 l3 _ IH1 _ IH2].
  - done.
  - by rewrite !Qc_py_sum_cons, IH.
  - rewrite !Qc_py_sum_cons. ring.
  - congruence.
Qed.

Lemma Qc_py_sum_div (s : Qc) l :
  py_sum ((λ x, f_div x s) <$> l) = (py_sum l / s)%Qc.
Proof.
  induction l as [|x l IH].
  - cbn. unfold Qcdiv. change (Q2Qc (inject_Z 0)) with 0%Qc. ring.
  - rewrite fmap_cons, !Qc_py_sum_cons, IH. cbn. unfold Qcdiv. ring.
Qed.

Lemma Qc_div_1 (x : Qc) : (x / 1)%Qc = x.
Proof.
  unfold Qcdiv. replace (/ 1)%Qc with 1%Qc; [ring|].
  by apply Qc_is_canon.
Qed.

Lemma Qc_div_diag (x : Qc) : x ≠ 0%Qc → (x / x)%Qc = 1%Qc.
Proof. intros. unfold Qcdiv. by rewrite Qcmult_inv_r. Qed.

(** ** Normalization *)

Section normalize_exact.
Context {Nucleus : Type} `{!NucleusT Nucleus}.
Implicit Types (c : Composition Qc Nucleus).

(** C8, in exact arithmetic: on a composition (a dictionary: its keys are
    distinct) whose mass fractions have a sum that is not zero,
    [normalize] returns, and a second [normalize] returns as well and
    leaves the mapping as the first left it. *)
Theorem normalize_idempotent_exact c :
  NoDup (dict_keys (X c)) →
  py_sum (dict_values (X c)) ≠ 0%Qc →
  ∃ c1, normalize c = (Ok tt, c1) ∧ normalize c1 = (Ok tt, c1).
Proof.
  intros Hnd Hs. eexists. split.
  - apply normalize_run; [done|]. by apply Qc_f_eqb_false.
  - set (s := py_sum (dict_values (X c))) in *.
    assert (py_sum (dict_values ((λ kv, (kv.1, f_div kv.2 s)) <$> X c)) = 1%Qc)
      as Hone.
    { rewrite (dict_values_fmap_val (λ x, f_div x s)), Qc_py_sum_div.
      by apply Qc_div_diag. }
    rewrite normalize_run; cbn [X].
    + rewrite Hone. do 2 f_equal. rewrite <-list_fmap_compose.
      apply list_fmap_ext. intros i [k v] _. cbn. by rewrite Qc_div_1.
    + by rewrite (dict_keys_fmap_val (λ _ x, f_div x s)).
    + rewrite Hone. by apply Qc_f_eqb_false.
Qed.

End normalize_exact.

Section solar_facts.
Context {F Nucleus : Type} `{!PyFloat F, !NucleusT Nucleus}.
Implicit Types (c : Composition F Nucleus) (k : Nucleus).

Lemma set_solar_like_loop_run Z_ rem c :
  NoDup (dict_keys (X c)) →
  set_solar_like_loop Z_ rem c
  = (Ok tt, {| X := (λ kv, (kv.1, solar_value Z_ rem kv.1)) <$> X c |}).
Proof.
  intros Hnd. destruct c as [d]. cbn [X] in *.
  unfold set_solar_like_loop. rewrite bind_get_run. cbn [X].
  rewrite (for_each_ext _ _ (λ k, X_setitem k (solar_value Z_ rem k))).
  - by apply (for_each_assign (solar_value Z_ rem) [] d).
  - intros k _. unfold solar_value. by repeat case_decide.
Qed.

Lemma dict_get_assigned (h : Nucleus → F) (d : dict Nucleus F) k :
  k ∈ dict_keys d →
  dict_get k ((λ kv, (kv.1, h kv.1)) <$> d) = Some (h k).
Proof.
  intros [v Hv]%dict_get_is_Some.
  by rewrite (dict_get_fmap_val (λ k _, h k)), Hv.
Qed.

End solar_facts.

Section solar_exact.
Context {Nucleus : Type} `{!NucleusT Nucleus}.
Implicit Types (c : Composition Qc Nucleus).


End solar_exact.

Section solar_binary64.
Context {Nucleus : Type} `{!NucleusT Nucleus}.
Implicit Types (c : Composition float Nucleus).

(** In binary64 as well, for every order of the four keys:
    [set_solar_like(0.02)] returns, leaves 0.7 for the proton, the float
    [0.3 - 0.02] for [he4] and 0.01 for the other two, and these sum to
    exactly 1.0. *)
Lemma set_solar_like_four_binary64 c he4 a b :
  dict_keys (X c) ≡ₚ [Nucleus_p; he4; a; b] →
  NoDup [Nucleus_p; he4; a; b] →
  raw he4 = "he4" → raw a ≠ "he4" → raw b ≠ "he4" →
  ∃ c1,
    set_solar_like (py_lit 2 2) c = (Ok tt, c1) ∧
    dict_get Nucleus_p (X c1) = Some (py_lit 7 1) ∧
    dict_get he4 (X c1) = Some (f_sub (py_lit 3 1) (py_lit 2 2)) ∧
    dict_get a (X c1) = Some (py_lit 1 2) ∧
    dict_get b (X c1) = Some (py_lit 1 2) ∧
    py_sum (dict_values (X c1)) = f_of_int 1.
Proof.
  intros Hperm Hnd4 Hhe Ha Hb.
  assert (NoDup (dict_keys (X c))) as Hnd by (by rewrite Hperm).
  set (Z_ := py_lit (F := float) 2 2). set (rem := f_div Z_ (f_of_int 2)).
  set (d0 := (λ kv, (kv.1, solar_value Z_ rem kv.1)) <$> X c).
  assert (dict_keys d0 = dict_keys (X c)) as Hk0
    by apply (dict_keys_fmap_val (λ k _, solar_value Z_ rem k)).
  assert (dict_values d0 = solar_value Z_ rem <$> dict_keys (X c)) as Hv0.
  { unfold d0, dict_values, dict_keys. by rewrite <-!list_fmap_compose. }
  apply NoDup_cons in Hnd4 as [Hp Hnd3].
  apply not_elem_of_cons in Hp as [Hp1 Hp].
  apply not_elem_of_cons in Hp as [Hp2 Hp].
  apply not_elem_of_cons in Hp as [Hp3 _].
  assert (solar_value Z_ rem Nucleus_p = py_lit 7 1) as Hvp.
  { unfold solar_value. by rewrite decide_True. }
  assert (solar_value Z_ rem he4 = f_sub (py_lit 3 1) Z_) as Hvhe.
  { unfold solar_value. by rewrite decide_False, decide_True. }
  assert (solar_value Z_ rem a = py_lit 1 2) as Hva.
  { unfold solar_value. rewrite !decide_False by done. by vm_compute. }
  assert (solar_value Z_ rem b = py_lit 1 2) as Hvb.
  { unfold solar_value. rewrite !decide_False by done. by vm_compute. }
  assert (py_sum (dict_values d0) = f_of_int 1) as Hsum.
  { rewrite Hv0. apply symmetry, permutations_Permutation in Hperm.
    cbn in Hperm. in_cases Hperm; cbn [fmap list_fmap];
      rewrite ?Hvp, ?Hvhe, ?Hva, ?Hvb; by vm_compute. }
  assert (∀ k, k ∈ [Nucleus_p; he4; a; b] →
     dict_get k ((λ kv, (kv.1, f_div kv.2 (f_of_int 1))) <$> d0)
     = Some (f_div (solar_value Z_ rem k) (f_of_int 1))) as Hget.
  { intros k Hk.
    rewrite (dict_get_fmap_val (λ _ x, f_div x (f_of_int 1))).
    unfold d0. rewrite dict_get_assigned by (by rewrite Hperm). done. }
  exists {| X := (λ kv, (kv.1, f_div kv.2 (f_of_int 1))) <$> d0 |}.
  cbn [X]. split_and!.
  - unfold set_solar_like. rewrite bind_get_run.
    replace (Z.of_nat (length (X c))) with 4%Z.
    + rewrite bind_lift_run. change (py_truediv Z_ (f_of_int (4 - 2))) with (Ok rem).
      cbv beta iota.
      rewrite bind_run, set_solar_like_loop_run by done. fold d0.
      rewrite normalize_run; cbn [X].
      * by rewrite Hsum.
      * by rewrite Hk0.
      * rewrite Hsum. by vm_compute.
    + rewrite <-(length_fmap fst). fold (dict_keys (X c)). by rewrite Hperm.
  - rewrite Hget, Hvp by solve_elem_of. by vm_compute.
  - rewrite Hget, Hvhe by solve_elem_of. by vm_compute.
  - rewrite Hget, Hva by solve_elem_of. by vm_compute.
  - rewrite Hget, Hvb by solve_elem_of. by vm_compute.
  - rewrite (dict_values_fmap_val (λ x, f_div x (f_of_int 1))), Hv0.
    apply symmetry, permutations_Permutation in Hperm.
    cbn in Hperm. in_cases Hperm; cbn [fmap list_fmap];
      rewrite ?Hvp, ?Hvhe, ?Hva, ?Hvb; by vm_compute.
Qed.

End solar_binary64.

Lemma rfold_Ok {A B} (body : B → A → result B) (step : B → A → B) acc l :
  (∀ acc x, x ∈ l → body acc x = Ok (step acc x)) →
  rfold body acc l = Ok (foldl step acc l).
Proof.
  revert acc. induction l as [|x l IH]; intros acc Hb; cbn; [done|].
  rewrite Hb by left. cbn. apply IH. intros acc' y ?. apply Hb. by right.
Qed.

(** ** Evaluation of the rates, in exact arithmetic *)

Section evaluate_exact.
Context {Nucleus Rate : Type}.
Context `{!PyMath Qc, !NucleusT Nucleus, !RateT Qc Nucleus Rate}.
Implicit Types (r : Rate) (n : Nucleus) (c : Composition Qc Nucleus).
Implicit Types (w : World Qc Nucleus Rate).

Lemma Qc_foldl_mult (a : Qc) l : foldl Qcmult a l = (a * list_product l)%Qc.
Proof.
  unfold list_product.
  revert a. induction l as [|x l IH]; intros a; cbn [foldl foldr]; [ring|].
  rewrite IH. ring.
Qed.

Lemma list_count_cons n m (l : list Nucleus) :
  list_count n (m :: l) = (if decide (m = n) then S (list_count n l) else list_count n l).
Proof. unfold list_count. rewrite filter_cons. by case_decide. Qed.

(** Over a duplicate-free list that holds [a], the powers of [y] with the
    indicator of [a] as exponent multiply to [y a]. *)
Lemma product_indicator (y : Nucleus → Qc) a d l :
  NoDup d →
  foldr (λ n acc, (y n ^ list_count n (a :: l) * acc)%Qc) 1%Qc d
  = ((if decide (a ∈ d) then y a else 1)
     * foldr (λ n acc, (y n ^ list_count n l * acc)%Qc) 1%Qc d)%Qc.
Proof.
  induction 1 as [|m d Hm Hd IH]; cbn [foldr].
  - rewrite decide_False by apply not_elem_of_nil. ring.
  - rewrite IH, list_count_cons.
    destruct (decide (a = m)) as [->|Hne].
    + destruct (decide (m ∈ d)) as [?|_]; [done|].
      destruct (decide (m ∈ m :: d)) as [_|Hn]; [|by destruct Hn; left].
      cbn [Qcpower]. ring.
    + destruct (decide (a ∈ d)) as [Ha|Ha].
      * destruct (decide (a ∈ m :: d)) as [_|Hn]; [ring|by destruct Hn; right].
      * destruct (decide (a ∈ m :: d)) as [[|]%elem_of_cons|_]; [done..|ring].
Qed.

Lemma multiset_product_over (y : Nucleus → Qc) d l :
  NoDup d → (∀ n, n ∈ l → n ∈ d) →
  foldr (λ n acc, (y n ^ list_count n l * acc)%Qc) 1%Qc d
  = list_product (y <$> l).
Proof.
  intros Hd. induction l as [|a l IH]; intros Hsub.
  - cbn [fmap list_fmap list_product foldr]. clear Hsub.
    induction d as [|m d IHd]; cbn [foldr]; [done|].
    apply NoDup_cons in Hd as [_ Hd]. rewrite IHd by done.
    unfold list_count. cbn [filter list_filter length Qcpower]. ring.
  - rewrite product_indicator by done.
    rewrite decide_True by (apply Hsub; left).
    rewrite IH by (intros n ?; apply Hsub; by right). done.
Qed.

Lemma multiset_product_list (y : Nucleus → Qc) l :
  multiset_product y l = list_product (y <$> l).
Proof.
  apply multiset_product_over; [apply NoDup_remove_dups|].
  intros n. by rewrite elem_of_remove_dups.
Qed.

Lemma get_molar_run c :
  NoDup (dict_keys (X c)) →
  get_molar c
  = (Ok ((λ kv, (kv.1, (kv.2 / f_of_int (Zpos (A kv.1)))%Qc)) <$> X c), c).
Proof.
  intros Hnd. unfold get_molar. rewrite bind_get_run. unfold lift. f_equal.
  rewrite (rfold_Ok _
    (λ acc kv, dict_set kv.1 (kv.2 / f_of_int (Zpos (A kv.1)))%Qc acc)).
  - f_equal.
    apply (foldl_dict_set_items (λ k v, (v / f_of_int (Zpos (A k)))%Qc) [] (X c)).
    done.
  - intros acc [k v] _. unfold py_truediv.
    by rewrite Qc_f_eqb_false by (by intros ?%(Qc_of_int_inj _ 0)).
Qed.

Lemma dict_getitem_molar c n :
  n ∈ dict_keys (X c) →
  dict_getitem n ((λ kv, (kv.1, (kv.2 / f_of_int (Zpos (A kv.1)))%Qc)) <$> X c)
  = Ok (molar_fraction c n).
Proof.
  intros [x Hx]%dict_get_is_Some. unfold dict_getitem, molar_fraction.
  rewrite (dict_get_fmap_val (λ k v, (v / f_of_int (Zpos (A k)))%Qc)), Hx. done.
Qed.

Lemma py_reduce_mult (l : list Qc) :
  l ≠ [] → py_reduce f_mul l = Ok (list_product l).
Proof.
  destruct l as [|x l]; [done|]. intros _. cbn [py_reduce f_mul Qc_PyFloat].
  by rewrite Qc_foldl_mult.
Qed.

Lemma Qc_py_pow (rho : Qc) e :
  rho ≠ 0%Qc ∨ 0 ≤ e → py_pow rho e = Ok (f_pow rho e).
Proof.
  intros H. unfold py_pow. destruct H as [H|H].
  - by rewrite Qc_f_eqb_false.
  - rewrite (proj2 (Z.ltb_ge e 0)) by done. by rewrite andb_false_r.
Qed.

(** What [evaluate_rates] returns when every reactant has a mass
    fraction, every rate has a reactant and every power is defined. *)
Lemma evaluate_rates_run rho T w :
  NoDup (dict_keys (X (w_composition w))) →
  (∀ r n, r ∈ rates (w_self w) → n ∈ reactants r →
          n ∈ dict_keys (X (w_composition w))) →
  (∀ r, r ∈ rates (w_self w) → reactants r ≠ []) →
  (rho ≠ 0%Qc ∨ ∀ r, r ∈ rates (w_self w) → 0 ≤ dens_exp r) →
  evaluate_rates rho T w
  = (Ok (foldl (λ d r, dict_set r (rate_formula rho T (w_composition w) r) d)
               [] (rates (w_self w))), w).
Proof.
  intros Hnd Hcov Hne Hpow. destruct w as [rc c]. cbn [w_self w_composition] in *.
  unfold evaluate_rates. rewrite bind_run. unfold on_composition.
  cbn [w_self w_composition]. rewrite get_molar_run by done.
  rewrite bind_get_run. unfold lift. cbn [w_self]. f_equal.
  apply rfold_Ok. intros acc r Hr.
  rewrite Qc_py_pow by (destruct Hpow; [by left|right; auto]).
  cbn [mbind result_bind rbind].
  rewrite (rmap_Ok _ (molar_fraction c))
    by (intros n Hn; apply dict_getitem_molar; eauto).
  cbn [mbind result_bind rbind].
  rewrite py_reduce_mult.
  - cbn [mbind result_bind rbind]. do 2 f_equal.
    unfold rate_formula. rewrite multiset_product_list.
    cbn [f_mul Qc_PyFloat]. ring.
  - intros Hnil%fmap_nil_inv. by apply (Hne r).
Qed.

(** C1, for rates that have a reactant and powers that are defined, in
    exact arithmetic: on a composition (a dictionary: its keys are
    distinct) that holds every reactant, [evaluate_rates] returns, leaves
    its arguments as they were, and maps each rate to the prefactor times
    the density to the density exponent times the temperature coefficient
    times the product, over the distinct reactants, of the molar fraction
    to the number of times the reactant occurs. *)
Theorem evaluate_rates_formula rho T w :
  NoDup (dict_keys (X (w_composition w))) →
  (∀ r n, r ∈ rates (w_self w) → n ∈ reactants r →
          n ∈ dict_keys (X (w_composition w))) →
  (∀ r, r ∈ rates (w_self w) → reactants r ≠ []) →
  (rho ≠ 0%Qc ∨ ∀ r, r ∈ rates (w_self w) → 0 ≤ dens_exp r) →
  ∃ rvals,
    evaluate_rates rho T w = (Ok rvals, w) ∧
    ∀ r, r ∈ rates (w_self w) →
      dict_get r rvals
      = Some (prefactor r * f_pow rho (dens_exp r) * Rate_eval r T
              * multiset_product (molar_fraction (w_composition w))
                                 (reactants r))%Qc.
Proof.
  intros Hnd Hcov Hne Hpow. eexists. split.
  - by apply evaluate_rates_run.
  - intros r Hr.
    rewrite (dict_get_foldl_set (rate_formula rho T (w_composition w))).
    by rewrite decide_True.
Qed.

End evaluate_exact.

Lemma Qc_ltb_lt (x y : Qc) : Qc_ltb x y = true ↔ (x < y)%Qc.
Proof.
  unfold Qc_ltb. rewrite Qclt_alt. by destruct (x ?= y)%Qc.
Qed.

Lemma Qc_ltb_false (x y : Qc) : (y < x)%Qc → Qc_ltb x y = false.
Proof.
  intros H. destruct (Qc_ltb x y) eqn:E; [|done].
  apply Qc_ltb_lt in E. destruct (Qclt_not_le _ _ H). by apply Qclt_le_weak.
Qed.

(** ** The order of both number systems *)

Global Instance Qc_PyFloatSign : PyFloatSign Qc.
Proof.
  split. intros x Hx%Qc_ltb_lt. split.
  - by apply Qc_ltb_false.
  - apply Qc_f_eqb_false. intros ->. by apply Qclt_not_eq in Hx.
Qed.

Global Instance float_PyFloatSign : PyFloatSign float.
Proof.
  split. intros x. cbn [f_ltb f_eqb f_of_int float_PyFloat float_of_int].
  rewrite !FloatAxioms.ltb_spec, FloatAxioms.eqb_spec.
  replace (Prim2SF (of_uint63 (Uint63.of_Z 0))) with (S754_zero false)
    by (by vm_compute).
  unfold SFltb, SFeqb.
  destruct (Prim2SF x) as [[]| [] | |[] m e]; cbn; try done.
Qed.

(** ** The graph of [plot] *)

Section plot_facts.
Context {F Nucleus Rate : Type}.
Context `{!PyFloat F, !PyMath F, !PyFloatSign F}.
Context `{!NucleusT Nucleus, !RateT F Nucleus Rate}.
Implicit Types (r : Rate) (n p : Nucleus) (c : Composition F Nucleus).
Implicit Types (rc : RateCollection Nucleus Rate) (yd : dict Rate F).

Lemma rate_weight_Some yd r :
  is_Some (dict_get r yd) → rate_weight (Some yd) r = Ok (weight_of yd r).
Proof.
  intros [v Hv]. unfold rate_weight, weight_of, dict_getitem, math_log10.
  rewrite Hv. cbn [mbind result_bind rbind].
  by destruct (f_ltb v (f_of_int 0) || f_eqb v (f_of_int 0)).
Qed.

Lemma weight_of_spec yd r v :
  dict_get r yd = Some v →
  (f_eqb v (f_of_int 0) = true → weight_of yd r = f_of_int (-308)) ∧
  (f_ltb (f_of_int 0) v = true → weight_of yd r = f_log10 v).
Proof using Type*.
  intros Hv. unfold weight_of. rewrite Hv. split.
  - intros ->. by rewrite orb_true_r.
  - intros [-> ->]%f_positive. done.
Qed.

Lemma rfold_dict_set_keys {V} (body : dict Rate V → Rate → result (dict Rate V))
    acc l d k :
  (∀ acc x acc', body acc x = Ok acc' → ∃ v, acc' = dict_set x v acc) →
  rfold body acc l = Ok d →
  k ∈ l ∨ is_Some (dict_get k acc) → is_Some (dict_get k d).
Proof.
  intros Hb. revert acc. induction l as [|x l IH]; intros acc; cbn.
  - intros [= <-] [?%elem_of_nil|?]; done.
  - destruct (body acc x) as [acc'|] eqn:Hx; cbn; [|done].
    intros Hfold Hk. apply (IH acc' Hfold).
    apply Hb in Hx as [v ->]. rewrite dict_get_set.
    destruct Hk as [[->|?]%elem_of_cons|?].
    + right. by rewrite decide_True.
    + by left.
    + right. by case_decide.
Qed.

(** [evaluate_rates] gives every held rate a value. *)
Lemma evaluate_rates_keys rho T (w : World F Nucleus Rate) yd r :
  (evaluate_rates rho T w).1 = Ok yd → r ∈ rates (w_self w) →
  is_Some (dict_get r yd).
Proof.
  unfold evaluate_rates. rewrite bind_run. unfold on_composition.
  destruct (get_molar (w_composition w)) as [[ys|e] c']; [|done].
  rewrite bind_get_run. unfold lift. cbn [fst w_self]. intros Hfold Hr.
  eapply rfold_dict_set_keys; [|exact Hfold|by left].
  intros acc x acc'. cbn beta.
  destruct (py_pow rho (dens_exp x)); cbn [mbind result_bind rbind]; [|done].
  destruct (rmap _ (reactants x)); cbn [mbind result_bind rbind]; [|done].
  destruct (py_reduce f_mul _); cbn [mbind result_bind rbind]; [|done].
  intros [= <-]. eauto.
Qed.

Lemma node_nuclei_unique rc n : n ∈ node_nuclei rc → n ∈ unique_nuclei rc.
Proof. unfold node_nuclei. by intros [_ ?]%list_elem_of_filter. Qed.

(** The edges [plot] adds when every held rate has a value. *)
Lemma plot_edges_run rs rc yd :
  RateCollection_init rs = Ok rc →
  (∀ r, r ∈ rates rc → is_Some (dict_get r yd)) →
  plot_edges rc (Some yd)
  = Ok (n ← node_nuclei rc;
        r ← filter (λ r, n ∈ reactants r) rs;
        p ← products r;
        if decide (p ∈ node_nuclei rc) then [(n, p, weight_of yd r)] else []).
Proof.
  intros Hinit Hyd. unfold plot_edges.
  apply rconcat_map_Ok. intros n Hn%node_nuclei_unique.
  pose proof (rates_Permutation _ _ Hinit) as Hperm.
  apply RateCollection_init_Ok in Hinit as (_ & _ & Hc & _).
  unfold dict_getitem. rewrite Hc.
  rewrite (dict_get_foldl_set (λ n, filter (λ r, n ∈ reactants r) rs)).
  rewrite decide_True by done. cbn [mbind result_bind rbind].
  apply rconcat_map_Ok. intros r [_ Hr]%list_elem_of_filter.
  apply rconcat_map_Ok. intros p Hp. case_decide; [|done].
  rewrite rate_weight_Some; [done|]. apply Hyd. by rewrite Hperm.
Qed.

(** C9: with a density, a temperature and a composition for which
    [evaluate_rates] returns, [plot] builds its graph without raising;
    every edge comes from a held rate that consumes its source and
    produces its target, and has weight -308 when the value of that rate
    equals 0 and its base-10 logarithm when the value is above 0; and
    every such rate between two nodes has such an edge.  This holds in
    every number system in which a number above zero is neither below
    zero nor equal to it, exact or binary64. *)
Theorem plot_zero_rate_weight rs rc rho T c ydots :
  RateCollection_init rs = Ok rc →
  (evaluate_rates rho T {| w_self := rc; w_composition := c |}).1 = Ok ydots →
  ∃ edges,
    plot_graph rc (Some rho) (Some T) (Some c) = Ok (node_nuclei rc, edges) ∧
    (∀ n p w, (n, p, w) ∈ edges →
       ∃ r v, r ∈ rates rc ∧ n ∈ reactants r ∧ p ∈ products r ∧
              dict_get r ydots = Some v ∧
              (f_eqb v (f_of_int 0) = true → w = f_of_int (-308)) ∧
              (f_ltb (f_of_int 0) v = true → w = f_log10 v)) ∧
    (∀ n p r, n ∈ node_nuclei rc → p ∈ node_nuclei rc → r ∈ rates rc →
              n ∈ reactants r → p ∈ products r →
       ∃ v w, dict_get r ydots = Some v ∧ (n, p, w) ∈ edges ∧
              (f_eqb v (f_of_int 0) = true → w = f_of_int (-308)) ∧
              (f_ltb (f_of_int 0) v = true → w = f_log10 v)).
Proof using Type*.
  intros Hinit Heval.
  assert (∀ r, r ∈ rates rc → is_Some (dict_get r ydots)) as Hyd.
  { intros r Hr. by eapply (evaluate_rates_keys rho T _ _ _ Heval). }
  pose proof (rates_Permutation _ _ Hinit) as Hperm.
  eexists. split_and!.
  - unfold plot_graph. rewrite Heval. cbn [mbind result_bind rbind].
    rewrite (plot_edges_run rs) by done. done.
  - intros n p w Hin.
    apply list_elem_of_bind in Hin as (n' & Hin & Hn').
    apply list_elem_of_bind in Hin as (r & Hin & [Hnr Hr]%list_elem_of_filter).
    apply list_elem_of_bind in Hin as (p' & Hin & Hp').
    case_decide; [|by apply elem_of_nil in Hin].
    apply list_elem_of_singleton in Hin as [= -> -> ->].
    destruct (Hyd r) as [v Hv]; [by rewrite Hperm|].
    exists r, v. split_and!; [by rewrite Hperm|done..| |];
      by apply weight_of_spec.
  - intros n p r Hn Hp Hr Hnr Hpr.
    destruct (Hyd r Hr) as [v Hv].
    exists v, (weight_of ydots r). split_and!; [done| |by apply weight_of_spec..].
    apply list_elem_of_bind. exists n. split; [|done].
    apply list_elem_of_bind. exists r. split.
    + apply list_elem_of_bind. exists p. split; [|done].
      rewrite decide_True by done. by apply list_elem_of_singleton.
    + apply list_elem_of_filter. split; [done|]. by rewrite <-Hperm.
Qed.

End plot_facts.

(** ** The model on the concrete network *)

Global Instance nucleus_NucleusOrder : NucleusOrder Sample.nucleus.
Proof.
  assert (∀ a b, Is_true (Sample.nucleus_ltb a b) ↔
                 (Sample.nuc_Z a < Sample.nuc_Z b)%nat ∨
                 (Sample.nuc_Z a = Sample.nuc_Z b ∧
                  (Sample.nuc_A a < Sample.nuc_A b)%positive)) as Hlt.
  { intros a b. unfold Sample.nucleus_ltb. case_decide.
    - rewrite Is_true_true, Pos.ltb_lt. lia.
    - rewrite Is_true_true, Nat.ltb_lt. lia. }
  split; cbn [Nucleus_ltb Sample.nucleus_NucleusT].
  - intros a. rewrite Hlt. lia.
  - intros a b c. rewrite !Hlt. lia.
  - intros [za aa] [zb ab] Hne. rewrite !Hlt. cbn.
    destruct (decide (za = zb)) as [->|]; [|lia].
    destruct (decide (aa = ab)) as [->|]; [done|lia].
Qed.

Lemma collection_init :
  RateCollection_init Sample.network = Ok Sample.collection.
Proof. vm_compute. reflexivity. Qed.

(** C2 on the concrete network. *)
Lemma unique_nuclei_sorted_union_witness :
  StronglySorted (λ a b, Nucleus_ltb a b) (unique_nuclei Sample.collection) ∧
  NoDup (unique_nuclei Sample.collection) ∧
  ∀ n, n ∈ unique_nuclei Sample.collection ↔
       ∃ r, r ∈ rates Sample.collection ∧ (n ∈ reactants r ∨ n ∈ products r).
Proof.
  apply (unique_nuclei_sorted_union Sample.network). exact collection_init.
Defined.

(** C3 on the concrete network: the proton and p + p -> d. *)
Lemma nuclei_index_complete_witness :
  ∃ consumed produced,
    dict_get Sample.p (nuclei_consumed Sample.collection) = Some consumed ∧
    dict_get Sample.p (nuclei_produced Sample.collection) = Some produced ∧
    (Sample.pp ∈ consumed ↔ Sample.p ∈ reactants Sample.pp) ∧
    (Sample.pp ∈ produced ↔ Sample.p ∈ products Sample.pp).
Proof.
  refine (nuclei_index_complete Sample.network Sample.collection
            Sample.p Sample.pp collection_init _ _); by_evaluation.
Defined.

(** C4 on the concrete network: the tabulated rate moves to the end. *)
Lemma rates_stable_partition_witness :
  rates Sample.collection
  = filter (λ r, chapter r ≠ PyStr "t") Sample.network
    ++ filter (λ r, chapter r = PyStr "t") Sample.network ∧
  ∀ i j a b,
    rates Sample.collection !! i = Some a →
    rates Sample.collection !! j = Some b →
    chapter a ≠ PyStr "t" → chapter b = PyStr "t" → (i < j)%nat.
Proof.
  apply (rates_stable_partition Sample.network). exact collection_init.
Defined.

(** C1 as stated fails on a rate with no reactant, whatever the
    composition holds: [functools.reduce] raises [TypeError]; and on a
    negative density exponent at density zero, where [**] raises
    [ZeroDivisionError]. *)
Lemma evaluate_rates_raises :
  (∃ rc,
     RateCollection_init [Sample.no_reactant] = Ok rc ∧
     (∀ r n, r ∈ rates rc → n ∈ reactants r →
             n ∈ dict_keys (X Sample.composition)) ∧
     (evaluate_rates (Sample.q 10 0) (Sample.q 1 0)
        {| w_self := rc; w_composition := Sample.composition |}).1
     = Raise TypeError) ∧
  (∃ rc,
     RateCollection_init [Sample.inverse_density] = Ok rc ∧
     (∀ r n, r ∈ rates rc → n ∈ reactants r →
             n ∈ dict_keys (X Sample.composition)) ∧
     (evaluate_rates (Sample.q 0 0) (Sample.q 1 0)
        {| w_self := rc; w_composition := Sample.composition |}).1
     = Raise ZeroDivisionError).
Proof.
  split; eexists; (split; [vm_compute; reflexivity|]); cbn [rates]; split.
  - intros r n Hr Hn. in_cases Hr. by apply elem_of_nil in Hn.
  - vm_compute. reflexivity.
  - intros r n Hr Hn. in_cases Hr. cbn in Hn. in_cases Hn. by_evaluation.
  - vm_compute. reflexivity.
Qed.

(** C1 on the concrete network at density 10 and temperature 1. *)
Lemma evaluate_rates_formula_witness :
  ∃ rvals,
    evaluate_rates (Sample.q 10 0) (Sample.q 1 0) Sample.world
      = (Ok rvals, Sample.world) ∧
    ∀ r, r ∈ rates (w_self Sample.world) →
      dict_get r rvals
      = Some (prefactor r * f_pow (Sample.q 10 0) (dens_exp r)
              * Rate_eval r (Sample.q 1 0)
              * multiset_product (molar_fraction (w_composition Sample.world))
                                 (reactants r))%Qc.
Proof.
  refine (evaluate_rates_formula (Sample.q 10 0) (Sample.q 1 0)
            Sample.world _ _ _ _).
  - by_evaluation.
  - intros r n Hr Hn. cbn in Hr. in_cases Hr; cbn in Hn; in_cases Hn; by_evaluation.
  - intros r Hr. cbn in Hr. in_cases Hr; done.
  - left. by intros ?%(Qc_of_int_inj _ 0).
Defined.

(** C6 at a sequence whose second element is a string: the constructor
    looks at the first element only, returns, and the string is a key of
    the dictionary. *)
Theorem Composition_init_checks_first_only :
  Composition_init [ONucleus Sample.p; OOther (PyStr "he4")]
                   (small_default : Qc)
  = Ok [(ONucleus Sample.p, small_default);
        (OOther (PyStr "he4"), small_default)].
Proof. reflexivity. Qed.


(** C8 as stated fails in binary64: from the mass fractions 0.1 and 0.3,
    whose sum is not zero, the first [normalize] leaves 0.25 and
    0.7499999999999999 and the second changes them again. *)
Lemma normalize_twice_differs_binary64 :
  NoDup (dict_keys (X Sample.hydrogen_helium)) ∧
  f_eqb (py_sum (dict_values (X Sample.hydrogen_helium))) (f_of_int 0) = false ∧
  ∃ c1 c2,
    normalize Sample.hydrogen_helium = (Ok tt, c1) ∧
    normalize c1 = (Ok tt, c2) ∧
    dict_get Sample.he4 (X c1) ≠ dict_get Sample.he4 (X c2).
Proof.
  split; [by_evaluation|]. split; [by vm_compute|].
  eexists _, _. split_and!.
  - vm_compute. reflexivity.
  - vm_compute. reflexivity.
  - vm_compute. intros H.
    match type of H with
    | _ = Some ?b =>
        apply (f_equal (λ o, if o is Some x then PrimFloat.eqb x b else false)) in H
    end.
    vm_compute in H. discriminate.
Qed.

(** C8 on the composition of the concrete network. *)
Lemma normalize_idempotent_exact_witness :
  ∃ c1, normalize Sample.composition = (Ok tt, c1) ∧
        normalize c1 = (Ok tt, c1).
Proof.
  refine (normalize_idempotent_exact Sample.composition _ _).
  - by_evaluation.
  - by_evaluation.
Defined.

(** C9 on the concrete network at density 10 and temperature 1, where the
    tabulated rate has the value 0. *)
Lemma plot_zero_rate_weight_witness :
  ∃ ydots,
    (evaluate_rates (Sample.q 10 0) (Sample.q 1 0) Sample.world).1 = Ok ydots ∧
    ∃ edges,
      plot_graph Sample.collection (Some (Sample.q 10 0)) (Some (Sample.q 1 0))
                 (Some Sample.composition)
        = Ok (node_nuclei Sample.collection, edges) ∧
      (∀ n p w, (n, p, w) ∈ edges →
         ∃ r v, r ∈ rates Sample.collection ∧ n ∈ reactants r ∧
                p ∈ products r ∧ dict_get r ydots = Some v ∧
                (f_eqb v (f_of_int 0) = true → w = f_of_int (-308)) ∧
                (f_ltb (f_of_int 0) v = true → w = f_log10 v)) ∧
      (∀ n p r, n ∈ node_nuclei Sample.collection →
                p ∈ node_nuclei Sample.collection →
                r ∈ rates Sample.collection →
                n ∈ reactants r → p ∈ products r →
         ∃ v w, dict_get r ydots = Some v ∧ (n, p, w) ∈ edges ∧
                (f_eqb v (f_of_int 0) = true → w = f_of_int (-308)) ∧
                (f_ltb (f_of_int 0) v = true → w = f_log10 v)).
Proof.
  eexists. split; [vm_compute; reflexivity|].
  refine (plot_zero_rate_weight Sample.network Sample.collection
            (Sample.q 10 0) (Sample.q 1 0) Sample.composition _
            collection_init _).
  vm_compute. reflexivity.
Defined.

(** ** Further runs of the model *)

(** The constructor returns exactly when the first element of the
    sequence is a [Nucleus]. *)
Lemma Composition_init_is_Ok {F Nucleus : Type} `{!PyFloat F, !NucleusT Nucleus}
    (nuclei : list (pyobj Nucleus)) (small : F) :
  is_Ok (Composition_init nuclei small) ↔
  ∃ n rest, nuclei = ONucleus n :: rest.
Proof.
  unfold Composition_init. destruct nuclei as [|[n|v] rest]; cbn.
  - split; [done|]. by intros (? & ? & ?).
  - split; [eauto|done].
  - split; [done|]. by intros (? & ? & ?).
Qed.

(** A rate with prefactor 1, density exponent 2, temperature coefficient
    3 and two protons of molar fraction 0.5 has the value
    1 * 100 * 3 * 0.25 = 75 at density 10. *)
Example evaluate_rates_seventy_five :
  ∃ rc rvals,
    RateCollection_init [Sample.pp_squared] = Ok rc ∧
    (evaluate_rates (Sample.q 10 0) (Sample.q 1 0)
       {| w_self := rc; w_composition := Sample.half_protons |}).1 = Ok rvals ∧
    dict_get Sample.pp_squared rvals = Some (Sample.q 75 0).
Proof.
  eexists _, _. split_and!; [vm_compute; reflexivity..|by_evaluation].
Qed.

(** Two rates of the concrete network share a file name: the collection
    is constructed and evaluated, and only [write_network] raises. *)
Example shared_fname :
  ¬ NoDup (fname <$> Sample.network) ∧
  RateCollection_init Sample.network = Ok Sample.collection ∧
  is_Ok (evaluate_rates (Sample.q 10 0) (Sample.q 1 0) Sample.world).1 ∧
  write_network Sample.collection = Raise AssertionError.
Proof.
  split_and!; [by_evaluation|exact collection_init|by vm_compute|].
  vm_compute. reflexivity.
Qed.

(** [set_solar_like(0.02)] in binary64 on four nuclei: the mass fractions
    it leaves sum to exactly 1.0, and the one of [he4] is the float
    [0.3 - 0.02], which is not the float [0.28]. *)
Example set_solar_like_binary64 :
  ∃ c1 x,
    set_solar_like (py_lit 2 2) Sample.four_nuclei_binary64 = (Ok tt, c1) ∧
    PrimFloat.eqb (py_sum (dict_values (X c1))) (f_of_int 1) = true ∧
    dict_get Sample.he4 (X c1) = Some x ∧
    PrimFloat.eqb x (f_sub (py_lit 3 1) (py_lit 2 2)) = true ∧
    PrimFloat.eqb x (py_lit 28 2) = false.
Proof.
  eexists _, _. split_and!; vm_compute; reflexivity.
Qed.

(** * Further properties of the model *)

(** ** Keys of dictionaries *)

Section dict_more.
Context {K V : Type} `{EqDecision K}.
Implicit Types (d : dict K V) (k : K) (v : V).

Lemma dict_keys_set k v d :
  dict_keys (dict_set k v d)
  = if decide (k ∈ dict_keys d) then dict_keys d else dict_keys d ++ [k].
Proof.
  induction d as [|[k' v'] d IH]; [done|].
  cbn [dict_set]. unfold dict_keys in *. cbn [fmap list_fmap fst].
  destruct (decide (k = k')) as [->|Hne].
  - cbn. rewrite decide_True by left. done.
  - cbn [fmap list_fmap fst]. rewrite IH.
    destruct (decide (k ∈ d.*1)).
    + rewrite decide_True by (by right). done.
    + rewrite decide_False; [done|]. by intros [?|?]%elem_of_cons.
Qed.

Lemma dict_keys_set_present k v d :
  k ∈ dict_keys d → dict_keys (dict_set k v d) = dict_keys d.
Proof. intros Hk. rewrite dict_keys_set. by rewrite decide_True. Qed.

(** The keys a run of assignments leaves: those of the sequence without
    repetitions, each where it first occurs. *)
Lemma dict_keys_foldr_set (f : K → V) (l : list K) :
  dict_keys (foldr (λ k d, dict_set k (f k) d) [] l) = reverse (remove_dups l).
Proof.
  induction l as [|x l IH]; [done|].
  cbn [foldr remove_dups]. rewrite dict_keys_set, IH.
  destruct (decide_rel elem_of x l) as [Hin|Hin].
  - rewrite decide_True; [done|]. by rewrite elem_of_reverse, elem_of_remove_dups.
  - rewrite decide_False; [by rewrite reverse_cons|].
    by rewrite elem_of_reverse, elem_of_remove_dups.
Qed.

Lemma foldl_foldr_reverse {A B} (f : B → A → B) (b : B) (l : list A) :
  foldl f b l = foldr (λ x acc, f acc x) b (reverse l).
Proof.
  revert b. induction l as [|x l IH]; intros b; [done|].
  rewrite reverse_cons, foldr_app. cbn. apply IH.
Qed.

End dict_more.

Lemma filter_none {A} (P : A → Prop) `{∀ x, Decision (P x)} (l : list A) :
  (∀ x, x ∈ l → ¬ P x) → filter P l = [].
Proof.
  induction l as [|x l IH]; intros Hl; [done|].
  rewrite filter_cons_False by (apply Hl; by left).
  apply IH. intros y Hy. apply Hl. by right.
Qed.

(** ** Composition *)

Section composition_more.
Context {F Nucleus : Type} `{!PyFloat F, !NucleusT Nucleus}.
Implicit Types (c : Composition F Nucleus) (k : Nucleus) (d : dict Nucleus F).

(** X1: when the constructor returns, the keys of the dictionary it
    leaves are the elements of the sequence without repetitions, each
    where it first occurs, and every element of the sequence is mapped to
    [small]. *)
Theorem Composition_init_keys (nuclei : list (pyobj Nucleus)) (small : F)
    (d0 : dict (pyobj Nucleus) F) :
  Composition_init nuclei small = Ok d0 →
  dict_keys d0 = reverse (remove_dups (reverse nuclei)) ∧
  NoDup (dict_keys d0) ∧
  (∀ o, o ∈ dict_keys d0 ↔ o ∈ nuclei) ∧
  (∀ o, o ∈ nuclei → dict_get o d0 = Some small).
Proof.
  unfold Composition_init. destruct nuclei as [|o nuclei]; [done|].
  destruct (negb (isinstance_Nucleus o)); [done|]. intros Heq.
  assert (d0 = foldl (λ acc x, dict_set x small acc) [] (o :: nuclei)) as ->
    by (by injection Heq as <-).
  clear Heq.
  assert (dict_keys (foldl (λ acc x, dict_set x small acc) [] (o :: nuclei))
          = reverse (remove_dups (reverse (o :: nuclei)))) as Hkeys.
  { rewrite foldl_foldr_reverse.
    apply (dict_keys_foldr_set (λ _, small)). }
  rewrite Hkeys. split_and!.
  - done.
  - rewrite reverse_Permutation. apply NoDup_remove_dups.
  - intros o'. by rewrite elem_of_reverse, elem_of_remove_dups, elem_of_reverse.
  - intros o' Ho'. rewrite (dict_get_foldl_set (λ _, small)).
    by rewrite decide_True.
Qed.

(** X2: [set_all(xval)] returns, keeps the keys in their order
    and leaves [xval] at every key; what stood there before is lost, so a
    later [set_all] gives the same as it would have given at once. *)
Theorem set_all_overwrites xval c :
  NoDup (dict_keys (X c)) →
  ∃ c', set_all xval c = (Ok tt, c') ∧
        dict_keys (X c') = dict_keys (X c) ∧
        (∀ k, k ∈ dict_keys (X c) → dict_get k (X c') = Some xval) ∧
        (∀ y, set_all y c' = set_all y c).
Proof.
  destruct c as [d]. cbn [X]. intros Hnd.
  assert (∀ x d', NoDup (dict_keys d') →
            set_all x {| X := d' |}
            = (Ok tt, {| X := (λ kv, (kv.1, x)) <$> d' |})) as Hrun.
  { intros x d' Hd'. unfold set_all. rewrite bind_get_run. cbn [X].
    apply (for_each_assign (λ _, x) [] d'). done. }
  assert (∀ x : F, dict_keys ((λ kv : Nucleus * F, (kv.1, x)) <$> d)
                   = dict_keys d) as Hkeys.
  { intros x. apply (dict_keys_fmap_val (λ _ _, x)). }
  eexists. split; [by apply Hrun|]. cbn [X]. split_and!.
  - apply Hkeys.
  - intros k Hk. by apply (dict_get_assigned (λ _, xval)).
  - intros y. rewrite !Hrun by (by rewrite ?Hkeys). f_equal. f_equal.
    rewrite <-list_fmap_compose. done.
Qed.

(** X3: [set_nuc(name, xval)] never raises and keeps the keys.
    When no key bears the name it changes nothing; otherwise it assigns
    [xval] to the first key that bears the name and leaves every other
    entry as it was, a later key of the same name included. *)
Theorem set_nuc_first_match name xval c :
  ∃ c', set_nuc name xval c = (Ok tt, c') ∧
    dict_keys (X c') = dict_keys (X c) ∧
    ((∀ k, k ∈ dict_keys (X c) → raw k ≠ name) → c' = c) ∧
    (∀ pre k0 suf,
       dict_keys (X c) = pre ++ k0 :: suf → raw k0 = name →
       (∀ k, k ∈ pre → raw k ≠ name) →
       dict_get k0 (X c') = Some xval ∧
       ∀ k, k ≠ k0 → dict_get k (X c') = dict_get k (X c)).
Proof.
  destruct c as [d]. unfold set_nuc. rewrite bind_get_run. cbn [X].
  destruct (filter (λ k, raw k = name) (dict_keys d)) as [|k1 l] eqn:Hf.
  - exists {| X := d |}. split_and!; [done..|].
    intros pre k0 suf Hd Hk0 _. exfalso.
    assert (k0 ∈ filter (λ k, raw k = name) (dict_keys d)) as Hin.
    { apply list_elem_of_filter. split; [done|]. rewrite Hd.
      apply elem_of_app. right. by left. }
    rewrite Hf in Hin. by apply elem_of_nil in Hin.
  - assert (k1 ∈ filter (λ k, raw k = name) (dict_keys d)) as Hin
      by (rewrite Hf; by left).
    apply list_elem_of_filter in Hin as [Hk1 Hin].
    rewrite X_setitem_run. eexists. split; [done|]. cbn [X]. split_and!.
    + by apply dict_keys_set_present.
    + intros Hnone. by destruct (Hnone k1 Hin).
    + intros pre k0 suf Hd Hk0 Hpre.
      assert (k1 = k0) as ->.
      { rewrite Hd, filter_app, filter_cons_True in Hf by done.
        assert (filter (λ k, raw k = name) pre = []) as Hnil.
        { by apply filter_none. }
        rewrite Hnil in Hf. by injection Hf. }
      split; [by rewrite dict_get_set, decide_True|].
      intros k Hk. by rewrite dict_get_set, decide_False.
Qed.

Lemma for_each_keys (l : list Nucleus) (body : Nucleus → M (Composition F Nucleus) unit)
    (ks : list Nucleus) :
  (∀ k s, k ∈ l → dict_keys (X s) = ks → dict_keys (X (body k s).2) = ks) →
  ∀ s, dict_keys (X s) = ks → dict_keys (X (for_each l body s).2) = ks.
Proof.
  induction l as [|k l IH]; intros Hbody s Hs; [done|].
  rewrite for_each_cons.
  assert (dict_keys (X (body k s).2) = ks) as Hk
    by (apply Hbody; [by left|done]).
  destruct (body k s) as [[[]|e] s']; cbn [snd] in *; [|done].
  apply IH; [|done]. intros k' s'' Hk'. apply Hbody. by right.
Qed.

Lemma X_setitem_keys k (v : F) (s : Composition F Nucleus) :
  k ∈ dict_keys (X s) → dict_keys (X (X_setitem k v s).2) = dict_keys (X s).
Proof.
  destruct s as [d]. rewrite X_setitem_run. cbn [snd X].
  apply dict_keys_set_present.
Qed.

Lemma set_all_keys x c : dict_keys (X (set_all x c).2) = dict_keys (X c).
Proof.
  unfold set_all. rewrite bind_get_run.
  apply for_each_keys; [|done]. intros k s Hk Hs.
  rewrite <-Hs. apply X_setitem_keys. by rewrite Hs.
Qed.

Lemma normalize_keys c : dict_keys (X (normalize c).2) = dict_keys (X c).
Proof.
  unfold normalize. rewrite bind_get_run, bind_lift_run.
  destruct (rmap _ _) as [xs|e]; [|done].
  apply for_each_keys; [|done]. intros k [d] Hk Hs.
  rewrite update_item_run.
  destruct (dict_getitem k d ≫= _); [|done]. cbn [snd X] in *.
  rewrite <-Hs. apply dict_keys_set_present. by rewrite Hs.
Qed.

Lemma set_solar_like_loop_keys Z_ rem c :
  dict_keys (X (set_solar_like_loop Z_ rem c).2) = dict_keys (X c).
Proof.
  unfold set_solar_like_loop. rewrite bind_get_run.
  apply for_each_keys; [|done]. intros k s Hk Hs.
  rewrite <-Hs. repeat case_decide; apply X_setitem_keys; by rewrite Hs.
Qed.

(** X4: [set_all], [set_nuc], [normalize] and [set_solar_like]
    leave the keys of [X] as they were, in the same order, whether they
    return or raise. *)
Theorem mutators_keep_keys c :
  (∀ x, dict_keys (X (set_all x c).2) = dict_keys (X c)) ∧
  (∀ name x, dict_keys (X (set_nuc name x c).2) = dict_keys (X c)) ∧
  dict_keys (X (normalize c).2) = dict_keys (X c) ∧
  (∀ Z_, dict_keys (X (set_solar_like Z_ c).2) = dict_keys (X c)).
Proof.
  split_and!.
  - intros x. apply set_all_keys.
  - intros name x. unfold set_nuc. rewrite bind_get_run.
    destruct (filter _ _) as [|k l] eqn:Hf; [done|].
    apply X_setitem_keys.
    assert (k ∈ filter (λ k, raw k = name) (dict_keys (X c))) as Hin
      by (rewrite Hf; by left).
    by apply list_elem_of_filter in Hin as [_ ?].
  - apply normalize_keys.
  - intros Z_. unfold set_solar_like. rewrite bind_get_run, bind_lift_run.
    destruct (py_truediv _ _) as [rem|e]; [|done].
    rewrite bind_run.
    pose proof (set_solar_like_loop_keys Z_ rem c) as Hloop.
    destruct (set_solar_like_loop Z_ rem c) as [[[]|e] c0]; cbn [snd] in *;
      [|done].
    by rewrite normalize_keys.
Qed.

(** X5: on mass fractions whose sum equals zero, [normalize]
    raises [ZeroDivisionError] at the first key and leaves the composition
    as it was; on a composition with no key it returns. *)
Theorem normalize_zero_sum c :
  NoDup (dict_keys (X c)) →
  f_eqb (py_sum (dict_values (X c))) (f_of_int 0) = true →
  (X c ≠ [] → normalize c = (Raise ZeroDivisionError, c)) ∧
  (X c = [] → normalize c = (Ok tt, c)).
Proof.
  intros Hnd Hzero. rewrite (normalize_zero c Hnd Hzero).
  split; intros Hc; by case_decide.
Qed.

(** X6: on a composition over exactly two nuclei,
    [set_solar_like] raises [ZeroDivisionError] for every [Z], since it
    divides [Z] by [num - 2], and leaves the composition as it was. *)
Theorem set_solar_like_two_nuclei Z_ c :
  f_eqb (f_of_int 0 : F) (f_of_int 0) = true →
  length (X c) = 2%nat →
  set_solar_like Z_ c = (Raise ZeroDivisionError, c).
Proof.
  intros Hzero Hlen. unfold set_solar_like.
  rewrite bind_get_run, bind_lift_run, Hlen. unfold py_truediv.
  change (Z.of_nat 2 - 2) with 0. by rewrite Hzero.
Qed.

End composition_more.

(** ** Composition, in exact arithmetic *)

Lemma Qc_of_int_add (a b : Z) :
  f_of_int (F := Qc) (a + b) = (f_of_int a + f_of_int b)%Qc.
Proof.
  cbn. apply Qc_is_canon. cbn. rewrite !Qred_correct, inject_Z_plus. done.
Qed.

Lemma Qc_of_int_nonzero (z : Z) : z ≠ 0 → f_of_int (F := Qc) z ≠ 0%Qc.
Proof. intros Hz H. by apply (Qc_of_int_inj z 0) in H. Qed.

Lemma Qc_py_sum_const {A} (r : Qc) (l : list A) :
  py_sum ((λ _, r) <$> l) = (f_of_int (Z.of_nat (length l)) * r)%Qc.
Proof.
  induction l as [|x l IH].
  - change (py_sum ((λ _, r) <$> [])) with 0%Qc.
    change (f_of_int (F := Qc) (Z.of_nat (length (@nil A)))) with 0%Qc. ring.
  - rewrite fmap_cons, Qc_py_sum_cons, IH. cbn [length].
    rewrite Nat2Z.inj_succ, <-Z.add_1_l, Qc_of_int_add.
    change (f_of_int (F := Qc) 1) with 1%Qc. ring.
Qed.

Lemma Qc_div_mul (x y : Qc) : y ≠ 0%Qc → (x / y * y)%Qc = x.
Proof.
  intros Hy. unfold Qcdiv.
  rewrite <-Qcmult_assoc, (Qcmult_comm (/ y)), Qcmult_inv_r by done. ring.
Qed.

Section composition_exact.
Context {Nucleus : Type} `{!NucleusT Nucleus}.
Implicit Types (c : Composition Qc Nucleus) (k : Nucleus).

Lemma normalize_exact_run c :
  NoDup (dict_keys (X c)) → py_sum (dict_values (X c)) ≠ 0%Qc →
  normalize c
  = (Ok tt, {| X := (λ kv, (kv.1, (kv.2 / py_sum (dict_values (X c)))%Qc))
                    <$> X c |}).
Proof.
  intros Hnd Hs. rewrite normalize_run; [done..|]. by apply Qc_f_eqb_false.
Qed.

Lemma normalize_exact_sum c :
  py_sum (dict_values (X c)) ≠ 0%Qc →
  py_sum (dict_values ((λ kv : Nucleus * Qc,
                          (kv.1, (kv.2 / py_sum (dict_values (X c)))%Qc))
                       <$> X c)) = 1%Qc.
Proof.
  intros Hs.
  rewrite (dict_values_fmap_val (λ x, (x / py_sum (dict_values (X c)))%Qc)).
  rewrite (Qc_py_sum_div (py_sum (dict_values (X c)))).
  by apply Qc_div_diag.
Qed.

(** X7: in exact arithmetic, on mass fractions whose sum is not
    zero, [normalize] returns, keeps the keys, leaves each mass fraction
    divided by the former sum, and the mass fractions then sum to 1. *)
Theorem normalize_sums_to_one c :
  NoDup (dict_keys (X c)) →
  py_sum (dict_values (X c)) ≠ 0%Qc →
  ∃ c1, normalize c = (Ok tt, c1) ∧
        dict_keys (X c1) = dict_keys (X c) ∧
        py_sum (dict_values (X c1)) = 1%Qc ∧
        ∀ k x, dict_get k (X c) = Some x →
               dict_get k (X c1) = Some (x / py_sum (dict_values (X c)))%Qc.
Proof.
  intros Hnd Hs. eexists. split; [by apply normalize_exact_run|].
  cbn [X]. split_and!.
  - apply (dict_keys_fmap_val (λ _ x, (x / py_sum (dict_values (X c)))%Qc)).
  - by apply normalize_exact_sum.
  - intros k x Hk.
    rewrite (dict_get_fmap_val (λ _ x, (x / py_sum (dict_values (X c)))%Qc)).
    by rewrite Hk.
Qed.

(** X8: in exact arithmetic, whenever [set_solar_like] returns
    on a composition that has a key, the mass fractions it leaves sum to
    1, whether or not the proton and [he4] are among the keys. *)
Theorem set_solar_like_normalized Z_ c c1 :
  NoDup (dict_keys (X c)) → X c ≠ [] →
  set_solar_like Z_ c = (Ok tt, c1) →
  py_sum (dict_values (X c1)) = 1%Qc.
Proof.
  intros Hnd Hne. unfold set_solar_like.
  rewrite bind_get_run, bind_lift_run.
  destruct (py_truediv _ _) as [rem|e]; [|done].
  rewrite bind_run, set_solar_like_loop_run by done.
  set (c0 := {| X := (λ kv, (kv.1, solar_value Z_ rem kv.1)) <$> X c |}).
  assert (NoDup (dict_keys (X c0))) as Hnd0.
  { unfold c0. cbn [X].
    by rewrite (dict_keys_fmap_val (λ k _, solar_value Z_ rem k)). }
  destruct (decide (py_sum (dict_values (X c0)) = 0%Qc)) as [Hz|Hnz].
  - rewrite normalize_zero; [|done|by apply bool_decide_eq_true].
    rewrite decide_False; [done|].
    unfold c0. cbn [X]. destruct (X c); [done|]. done.
  - rewrite normalize_exact_run by done. intros [= <-].
    by apply (normalize_exact_sum c0).
Qed.

(** X9: in exact arithmetic, on a composition over the proton, one
    nucleus named [he4] and any number (not zero) of others,
    [set_solar_like(Z)] returns and leaves exactly 0.7 for the proton,
    0.3 - Z for [he4] and Z divided by the number of the others for each
    of them: the values assigned already sum to 1, so the normalization
    changes nothing. *)
Theorem set_solar_like_exact Z_ c he4 others :
  dict_keys (X c) ≡ₚ Nucleus_p :: he4 :: others →
  NoDup (Nucleus_p :: he4 :: others) →
  raw he4 = "he4" →
  (∀ k, k ∈ others → raw k ≠ "he4") →
  others ≠ [] →
  ∃ c1,
    set_solar_like Z_ c = (Ok tt, c1) ∧
    dict_keys (X c1) = dict_keys (X c) ∧
    dict_get Nucleus_p (X c1) = Some (py_lit 7 1) ∧
    dict_get he4 (X c1) = Some (py_lit 3 1 - Z_)%Qc ∧
    (∀ k, k ∈ others →
          dict_get k (X c1)
          = Some (Z_ / f_of_int (Z.of_nat (length others)))%Qc) ∧
    py_sum (dict_values (X c1)) = 1%Qc.
Proof.
  intros Hperm Hnd' Hhe Hothers Hne.
  assert (NoDup (dict_keys (X c))) as Hnd by (by rewrite Hperm).
  set (m := Z.of_nat (length others)).
  assert (m ≠ 0) as Hm by (unfold m; destruct others; [done|cbn; lia]).
  assert (Z.of_nat (length (X c)) - 2 = m) as Hlen.
  { rewrite <-(length_fmap fst). fold (dict_keys (X c)). rewrite Hperm.
    unfold m. cbn [length]. lia. }
  set (rem := (Z_ / f_of_int m)%Qc).
  set (d0 := (λ kv, (kv.1, solar_value Z_ rem kv.1)) <$> X c).
  assert (dict_keys d0 = dict_keys (X c)) as Hk0
    by apply (dict_keys_fmap_val (λ k _, solar_value Z_ rem k)).
  apply NoDup_cons in Hnd' as [Hp Hnd'].
  apply not_elem_of_cons in Hp as [Hp1 Hp].
  apply NoDup_cons in Hnd' as [Hh _].
  assert (solar_value Z_ rem Nucleus_p = py_lit 7 1) as Hvp.
  { unfold solar_value. by rewrite decide_True. }
  assert (solar_value Z_ rem he4 = (py_lit 3 1 - Z_)%Qc) as Hvhe.
  { unfold solar_value. by rewrite decide_False, decide_True. }
  assert (∀ k, k ∈ others → solar_value Z_ rem k = rem) as Hvo.
  { intros k Hk. unfold solar_value.
    rewrite decide_False by (by intros ->).
    rewrite decide_False by (by apply Hothers). done. }
  assert (py_sum (dict_values d0) = 1%Qc) as Hsum.
  { replace (dict_values d0) with (solar_value Z_ rem <$> dict_keys (X c)).
    - rewrite (Qc_py_sum_Permutation _
                 (solar_value Z_ rem <$> Nucleus_p :: he4 :: others))
        by (by rewrite Hperm).
      rewrite !fmap_cons, !Qc_py_sum_cons, Hvp, Hvhe.
      rewrite (list_fmap_ext _ (λ _, rem) others)
        by (intros i k Hi; apply Hvo; by eapply list_elem_of_lookup_2).
      rewrite Qc_py_sum_const. fold m. unfold rem.
      rewrite (Qcmult_comm (f_of_int m)), Qc_div_mul
        by (by apply Qc_of_int_nonzero).
      transitivity (py_lit 7 1 + py_lit 3 1 : Qc)%Qc; [ring|].
      by apply Qc_is_canon.
    - unfold d0, dict_values, dict_keys. by rewrite <-!list_fmap_compose. }
  assert (∀ k, k ∈ Nucleus_p :: he4 :: others →
               dict_get k d0 = Some (solar_value Z_ rem k)) as Hget.
  { intros k Hk. apply dict_get_assigned. by rewrite Hperm. }
  assert (∀ k v, dict_get k d0 = Some v →
                 dict_get k ((λ kv : Nucleus * Qc, (kv.1, (kv.2 / 1)%Qc)) <$> d0)
                 = Some v) as Hget1.
  { intros k v Hk. rewrite (dict_get_fmap_val (λ _ x, (x / 1)%Qc)), Hk.
    cbn. by rewrite Qc_div_1. }
  exists {| X := (λ kv, (kv.1, (kv.2 / 1)%Qc)) <$> d0 |}. cbn [X]. split_and!.
  - unfold set_solar_like. rewrite bind_get_run, Hlen, bind_lift_run.
    unfold py_truediv.
    rewrite Qc_f_eqb_false by (by apply Qc_of_int_nonzero).
    rewrite bind_run. change (f_div Z_ (f_of_int m)) with rem.
    rewrite set_solar_like_loop_run by done. fold d0.
    rewrite normalize_exact_run; cbn [X]; [by rewrite Hsum|by rewrite Hk0|].
    by rewrite Hsum.
  - by rewrite (dict_keys_fmap_val (λ _ x, (x / 1)%Qc)).
  - apply Hget1. rewrite Hget, Hvp; [done|by left].
  - apply Hget1. rewrite Hget, Hvhe; [done|]. right. by left.
  - intros k Hk. apply Hget1. rewrite Hget, Hvo; [done..|]. by do 2 right.
  - rewrite (dict_values_fmap_val (λ x, (x / 1)%Qc)).
    rewrite (Qc_py_sum_div 1%Qc), Hsum. apply Qc_div_1.
Qed.

(** X10: in exact arithmetic, [get_molar] returns without touching
    the composition; the dictionary it returns has the keys of [X] in the
    same order, and each molar fraction times the mass number of its
    nucleus gives back the mass fraction. *)
Theorem get_molar_round_trip c :
  NoDup (dict_keys (X c)) →
  ∃ ys, get_molar c = (Ok ys, c) ∧
        dict_keys ys = dict_keys (X c) ∧
        ∀ k x, dict_get k (X c) = Some x →
               ∃ y, dict_get k ys = Some y ∧
                    (y * f_of_int (Zpos (A k)))%Qc = x.
Proof.
  intros Hnd. eexists. split; [by apply get_molar_run|]. split.
  - apply (dict_keys_fmap_val (λ k x, (x / f_of_int (Zpos (A k)))%Qc)).
  - intros k x Hk. eexists. split.
    + rewrite (dict_get_fmap_val (λ k x, (x / f_of_int (Zpos (A k)))%Qc)).
      by rewrite Hk.
    + apply Qc_div_mul. by apply Qc_of_int_nonzero.
Qed.

(** X11: in exact arithmetic, [set_all(x)] followed by
    [normalize] leaves one over the number of nuclei at every key,
    whatever [x] is, as long as it is not zero. *)
Theorem set_all_normalize_uniform x c :
  NoDup (dict_keys (X c)) → X c ≠ [] → x ≠ 0%Qc →
  ∃ c1 c2,
    set_all x c = (Ok tt, c1) ∧ normalize c1 = (Ok tt, c2) ∧
    dict_keys (X c2) = dict_keys (X c) ∧
    ∀ k, k ∈ dict_keys (X c) →
         dict_get k (X c2)
         = Some (1 / f_of_int (Z.of_nat (length (X c))))%Qc.
Proof.
  intros Hnd Hne Hx.
  set (n := f_of_int (F := Qc) (Z.of_nat (length (X c)))).
  assert (n ≠ 0%Qc) as Hn.
  { apply Qc_of_int_nonzero. destruct (X c); [done|cbn; lia]. }
  set (d1 := (λ kv : Nucleus * Qc, (kv.1, x)) <$> X c).
  assert (dict_keys d1 = dict_keys (X c)) as Hk1
    by apply (dict_keys_fmap_val (λ _ _, x)).
  assert (py_sum (dict_values d1) = (n * x)%Qc) as Hsum.
  { replace (dict_values d1)
      with ((λ _ : Nucleus * Qc, x) <$> (X c : list (Nucleus * Qc))).
    - apply (Qc_py_sum_const x (X c)).
    - unfold d1, dict_values. by rewrite <-list_fmap_compose. }
  assert ((n * x)%Qc ≠ 0%Qc) as Hnx.
  { intros H. by apply Qcmult_integral in H as [?|?]. }
  exists {| X := d1 |}. eexists. split_and!.
  - unfold set_all. rewrite bind_get_run.
    destruct c as [d]. apply (for_each_assign (λ _, x) [] d). done.
  - apply normalize_exact_run; cbn [X]; [by rewrite Hk1|by rewrite Hsum].
  - cbn [X]. rewrite Hsum.
    by rewrite (dict_keys_fmap_val (λ _ v, (v / (n * x))%Qc)).
  - intros k Hk. cbn [X]. rewrite Hsum.
    rewrite (dict_get_fmap_val (λ _ v, (v / (n * x))%Qc)).
    unfold d1. rewrite (dict_get_assigned (λ _, x)) by done. cbn. f_equal.
    fold n. field. by split.
Qed.

End composition_exact.

(** ** Construction of a collection *)

Lemma remove_dups_NoDup {A} `{EqDecision A} (l : list A) :
  NoDup l → remove_dups l = l.
Proof.
  induction 1 as [|x l Hx _ IH]; [done|].
  cbn. destruct (decide_rel elem_of x l); [done|]. by rewrite IH.
Qed.

(** Assigning to distinct keys of an empty dictionary leaves them in the
    order of the assignments. *)
Lemma dict_keys_foldl_set {K V} `{EqDecision K} (f : K → V) (l : list K) :
  NoDup l → dict_keys (foldl (λ d x, dict_set x (f x) d) [] l) = l.
Proof.
  intros Hnd. rewrite foldl_foldr_reverse, (dict_keys_foldr_set f).
  rewrite remove_dups_NoDup by (by rewrite reverse_Permutation).
  apply reverse_involutive.
Qed.

Lemma filter_imap_all {A B} (Q : B * A → Prop) `{∀ x, Decision (Q x)}
    (g : nat → B) (l : list A) :
  (∀ j x, x ∈ l → Q (g j, x)) →
  (filter Q (imap (λ n x, (g n, x)) l)).*1 = g <$> seq 0 (length l).
Proof.
  revert g. induction l as [|x l IH]; intros g Hl; [done|].
  rewrite imap_cons, filter_cons_True by (apply Hl; by left).
  cbn [fmap list_fmap fst length seq]. f_equal.
  rewrite <-fmap_S_seq, <-list_fmap_compose.
  apply (IH (g ∘ S)). intros j y Hy. apply Hl. by right.
Qed.

Lemma filter_imap_none {A B} (Q : B * A → Prop) `{∀ x, Decision (Q x)}
    (g : nat → B) (l : list A) :
  (∀ j x, x ∈ l → ¬ Q (g j, x)) →
  filter Q (imap (λ n x, (g n, x)) l) = [].
Proof.
  intros Hl. apply filter_none. intros [b x] Hin.
  apply elem_of_lookup_imap in Hin as (j & y & [= -> ->] & Hy).
  apply Hl. by eapply list_elem_of_lookup_2.
Qed.

Section init_more.
Context {F Nucleus Rate : Type}.
Context `{!PyFloat F, !PyMath F, !NucleusT Nucleus, !RateT F Nucleus Rate}.
Implicit Types (r : Rate) (n : Nucleus) (rs : list Rate).
Implicit Types (rc : RateCollection Nucleus Rate).

Lemma chapter_known_iff r :
  chapter_known r ↔ chapter r = PyStr "t" ∨ ∃ z, chapter r = PyInt z.
Proof.
  unfold chapter_known, is_tabular, chapter_is_int.
  rewrite bool_decide_spec.
  destruct (chapter r) as [z|s|]; cbn; split;
    intros [?|?]; try done; eauto; try (by right); by destruct H as [? ?].
Qed.

Lemma classify_exit acc l :
  is_Ok (classify acc l) ∨ classify acc l = Raise SystemExit.
Proof.
  unfold classify. revert acc.
  induction l as [|[n r] l IH]; intros [tab reac]; cbn; [by left|].
  destruct (is_tabular r); cbn; [apply IH|].
  destruct (chapter_is_int r); cbn; [apply IH|by right].
Qed.

(** X12: construction returns when the chapter of every rate is
    ['t'] or an integer, and raises [SystemExit] when a rate has a chapter
    of another kind. *)
Theorem RateCollection_init_chapters rs :
  ((∀ r, r ∈ rs → chapter r = PyStr "t" ∨ ∃ z, chapter r = PyInt z) →
   ∃ rc, RateCollection_init rs = Ok rc) ∧
  ((∃ r, r ∈ rs ∧ chapter r ≠ PyStr "t" ∧ ∀ z, chapter r ≠ PyInt z) →
   RateCollection_init rs = Raise SystemExit).
Proof.
  pose proof (RateCollection_init_is_Ok rs) as Hok. split.
  - intros Hall.
    assert (is_Ok (RateCollection_init rs)) as H.
    { apply Hok, Forall_forall. intros r Hr. by apply chapter_known_iff, Hall. }
    destruct (RateCollection_init rs) as [rc|]; [by exists rc|done].
  - intros (r & Hr & Ht & Hi).
    assert (¬ is_Ok (RateCollection_init rs)) as H.
    { rewrite Hok, Forall_forall. intros Hall.
      apply Hall, chapter_known_iff in Hr as [?|[z ?]]; [done|by eapply Hi]. }
    revert H. unfold RateCollection_init. cbn [app].
    match goal with |- context [classify ?a ?l] =>
      destruct (classify_exit a l) as [Hc| ->];
      [destruct (classify a l) as [[tab reac]|]|] end; cbn; done.
Qed.

Lemma classify_run tab reac (l : list (nat * Rate)) :
  Forall (λ nr, chapter_known nr.2) l →
  classify (tab, reac) l
  = Ok (tab ++ (filter (λ nr, is_tabular nr.2) l).*1,
        reac ++ (filter (λ nr, ¬ is_tabular nr.2) l).*1).
Proof.
  unfold classify. revert tab reac.
  induction l as [|[i r] l IH]; intros tab reac Hl; cbn [rfold].
  - by rewrite !filter_nil, !app_nil_r.
  - apply Forall_cons in Hl as [Hr Hl]. cbn [snd] in Hr.
    destruct (is_tabular r) eqn:Ht; cbn [rbind].
    + rewrite IH by done.
      rewrite filter_cons_True by (cbn [snd]; by rewrite Ht).
      rewrite filter_cons_False by (cbn [snd]; rewrite Ht; intros Hn; by apply Hn).
      cbn [fmap list_fmap fst]. by rewrite <-app_assoc.
    + destruct Hr as [Hr|Hr]; [by rewrite Ht in Hr|].
      destruct (chapter_is_int r); [|done]. cbn [rbind].
      rewrite IH by done.
      rewrite filter_cons_False by (cbn [snd]; rewrite Ht; exact id).
      rewrite filter_cons_True by (cbn [snd]; rewrite Ht; exact id).
      cbn [fmap list_fmap fst]. by rewrite <-app_assoc.
Qed.

(** X13: with [k] rates that are not tabulated, [reaclib_rates] is
    [0, ..., k-1] and [tabular_rates] is [k, ..., len(rates)-1]: the two
    lists are ascending, and a position is in [tabular_rates] exactly when
    the rate at that position is tabulated and in [reaclib_rates] exactly
    when its chapter is an integer. *)
Theorem index_lists_partition rs rc :
  RateCollection_init rs = Ok rc →
  let k := length (filter (λ r, chapter r ≠ PyStr "t") rs) in
  reaclib_rates rc = seq 0 k ∧
  tabular_rates rc = seq k (length rs - k) ∧
  ∀ i r, rates rc !! i = Some r →
         (i ∈ tabular_rates rc ↔ chapter r = PyStr "t") ∧
         (i ∈ reaclib_rates rc ↔ ∃ z, chapter r = PyInt z).
Proof.
  intros Hinit k.
  assert (Forall chapter_known rs) as Hknown.
  { apply RateCollection_init_is_Ok. by rewrite Hinit. }
  rewrite Forall_forall in Hknown.
  set (l0 := filter (λ r, ¬ is_tabular r) rs).
  set (l1 := filter (λ r, is_tabular r) rs).
  assert (∀ r, is_tabular r ↔ chapter r = PyStr "t") as Htab.
  { intros r. unfold is_tabular. by rewrite bool_decide_spec. }
  assert (k = length l0) as Hk.
  { unfold k, l0. f_equal. apply list_filter_iff. intros r. by rewrite Htab. }
  assert (length rs = (length l0 + length l1)%nat) as Hlen.
  { unfold l0, l1. clear. induction rs as [|r rs IH]; [done|].
    destruct (is_tabular r) eqn:Ht.
    - rewrite filter_cons_False, filter_cons_True by (by rewrite Ht; try intros []).
      cbn. lia.
    - rewrite filter_cons_True, filter_cons_False by (by rewrite Ht; try intros []).
      cbn. lia. }
  revert Hinit. unfold RateCollection_init. cbn [app].
  rewrite py_sorted_bool_key. fold l0 l1.
  rewrite classify_run; cycle 1.
  { apply Forall_forall. intros [i r] Hir. cbn.
    unfold enumerate in Hir.
    apply elem_of_lookup_imap in Hir as (j & y & [= -> ->] & Hy).
    apply Hknown. apply list_elem_of_lookup_2 in Hy.
    apply elem_of_app in Hy as [Hy|Hy];
      by apply list_elem_of_filter in Hy as [_ ?]. }
  unfold enumerate. rewrite imap_app, !filter_app, !fmap_app.
  rewrite (filter_imap_none _ (λ j, j) l0)
    by (intros j r Hr; by apply list_elem_of_filter in Hr as [? _]).
  rewrite (filter_imap_all _ (λ j, (length l0 + j)%nat) l1)
    by (intros j r Hr; by apply list_elem_of_filter in Hr as [? _]).
  rewrite (filter_imap_all _ (λ j, j) l0)
    by (intros j r Hr; by apply list_elem_of_filter in Hr as [? _]).
  rewrite (filter_imap_none _ (λ j, (length l0 + j)%nat) l1)
    by (intros j r Hr Hn; by apply list_elem_of_filter in Hr as [? _]).
  cbn [mbind result_bind rbind app fmap list_fmap].
  rewrite app_nil_r, list_fmap_id, fmap_add_seq, Nat.add_0_r.
  intros [= <-]. cbn [reaclib_rates tabular_rates rates].
  replace (length rs - k)%nat with (length l1) by lia. rewrite Hk.
  split; [done|]. split; [done|].
  intros i r Hi. rewrite !elem_of_seq.
  apply lookup_app_Some in Hi as [Hi|[Hle Hi]].
  - pose proof (lookup_lt_Some _ _ _ Hi) as Hlt.
    apply list_elem_of_lookup_2, list_elem_of_filter in Hi as [Hnt Hr].
    rewrite Htab in Hnt. split.
    + split; [lia|done].
    + split; [intros _|lia].
      apply Hknown, chapter_known_iff in Hr as [?|?]; done.
  - pose proof (lookup_lt_Some _ _ _ Hi) as Hlt.
    apply list_elem_of_lookup_2, list_elem_of_filter in Hi as [Ht Hr].
    rewrite Htab in Ht. split.
    + split; [done|lia].
    + split; [lia|]. intros [z Hz]. congruence.
Qed.

(** X14: [nuclei_consumed] and [nuclei_produced] have exactly the
    unique nuclei as keys, in their sorted order; each list holds the
    rates in the order the library gave them, not in the order of
    [rates], and is empty for a nucleus that no rate consumes (produces). *)
Theorem nuclei_index_keys rs rc :
  RateCollection_init rs = Ok rc →
  dict_keys (nuclei_consumed rc) = unique_nuclei rc ∧
  dict_keys (nuclei_produced rc) = unique_nuclei rc ∧
  ∀ n, n ∈ unique_nuclei rc →
       dict_get n (nuclei_consumed rc)
       = Some (filter (λ r, n ∈ reactants r) rs) ∧
       dict_get n (nuclei_produced rc)
       = Some (filter (λ r, n ∈ products r) rs).
Proof.
  intros (_ & Hu & Hc & Hp)%RateCollection_init_Ok.
  assert (NoDup (unique_nuclei rc)) as Hnd.
  { rewrite Hu, py_sorted_Permutation. by apply NoDup_gathered, NoDup_nil. }
  rewrite Hc, Hp. split_and!.
  - by apply (dict_keys_foldl_set (λ n, filter (λ r, n ∈ reactants r) rs)).
  - by apply (dict_keys_foldl_set (λ n, filter (λ r, n ∈ products r) rs)).
  - intros n Hn.
    rewrite (dict_get_foldl_set (λ n, filter (λ r, n ∈ reactants r) rs)).
    rewrite (dict_get_foldl_set (λ n, filter (λ r, n ∈ products r) rs)).
    by rewrite !decide_True.
Qed.

End init_more.

(** ** The loop of [evaluate_rates] *)

Lemma rfold_is_Ok {A B} (body : B → A → result B) (P : A → Prop) acc l :
  (∀ acc x, x ∈ l → is_Ok (body acc x) ↔ P x) →
  is_Ok (rfold body acc l) ↔ ∀ x, x ∈ l → P x.
Proof.
  revert acc. induction l as [|x l IH]; intros acc Hb; cbn [rfold].
  - split; [|done]. by intros _ x ?%elem_of_nil.
  - pose proof (Hb acc x (list_elem_of_here x l)) as Hx.
    destruct (body acc x) as [acc'|e]; cbn [rbind is_Ok] in *.
    + rewrite IH by (intros acc'' y Hy; apply Hb; by right).
      split.
      * intros Hl y [->|Hy]%elem_of_cons; [by apply Hx|by apply Hl].
      * intros Hl y Hy. apply Hl. by right.
    + split; [done|]. intros Hl. apply Hx, Hl. by left.
Qed.

Lemma rfold_Raise_in {A B} (body : B → A → result B) (E : exn → Prop) acc l e :
  (∀ acc x e, x ∈ l → body acc x = Raise e → E e) →
  rfold body acc l = Raise e → E e.
Proof.
  revert acc. induction l as [|x l IH]; intros acc Hb; cbn [rfold]; [done|].
  destruct (body acc x) as [acc'|e'] eqn:Hx; cbn [rbind].
  - apply IH. intros acc'' y e'' Hy. apply Hb. by right.
  - intros [= <-]. eapply Hb; [|done]. by left.
Qed.

Section lookups.
Context {K V : Type} `{EqDecision K}.
Implicit Types (d : dict K V) (k : K).

Lemma rmap_getitem_is_Ok d (l : list K) :
  is_Ok (rmap (λ k, dict_getitem k d) l) ↔ ∀ k, k ∈ l → k ∈ dict_keys d.
Proof.
  induction l as [|k l IH].
  - split; [|done]. by intros _ k ?%elem_of_nil.
  - rewrite rmap_cons.
    destruct (dict_get k d) as [v|] eqn:Hk.
    + assert (dict_getitem k d = Ok v) as ->
        by (unfold dict_getitem; by rewrite Hk).
      cbn [mbind result_bind rbind].
      assert (k ∈ dict_keys d) as Hin by (apply dict_get_is_Some; eauto).
      destruct (rmap _ l) as [vs|e]; cbn [mbind result_bind rbind is_Ok] in *.
      * split; [|done]. intros _ k' [->|?]%elem_of_cons; [done|by apply IH].
      * split; [done|]. intros Hl. apply IH. intros k' ?. apply Hl. by right.
    + assert (dict_getitem k d = Raise KeyError) as ->
        by (unfold dict_getitem; by rewrite Hk).
      split; [done|]. intros Hl.
      assert (is_Some (dict_get k d)) as [? ?]
        by (apply dict_get_is_Some, Hl; by left).
      congruence.
Qed.

Lemma rmap_getitem_Raise d (l : list K) e :
  rmap (λ k, dict_getitem k d) l = Raise e →
  e = KeyError ∧ ∃ k, k ∈ l ∧ k ∉ dict_keys d.
Proof.
  induction l as [|k l IH]; [done|].
  rewrite rmap_cons.
  destruct (dict_get k d) as [v|] eqn:Hk.
  - assert (dict_getitem k d = Ok v) as ->
      by (unfold dict_getitem; by rewrite Hk).
    cbn [mbind result_bind rbind].
    destruct (rmap _ l) as [vs|e']; cbn [mbind result_bind rbind]; [done|].
    intros [= <-]. destruct IH as (-> & k' & ? & ?); [done|].
    split; [done|]. exists k'. split; [by right|done].
  - assert (dict_getitem k d = Raise KeyError) as ->
      by (unfold dict_getitem; by rewrite Hk).
    intros [= <-]. split; [done|]. exists k. split; [by left|].
    rewrite <-dict_get_is_Some, Hk. by intros [? ?].
Qed.

Lemma rmap_nil_inv {A B} (f : A → result B) (l : list A) :
  rmap f l = Ok [] → l = [].
Proof.
  destruct l as [|x l]; [done|]. rewrite rmap_cons.
  destruct (f x); cbn; [|done]. destruct (rmap f l); cbn; done.
Qed.

Lemma dict_keys_foldl_set_items {A} (g : A → K) (h : A → V) (acc : dict K V)
    (l : list A) k :
  k ∈ dict_keys (foldl (λ acc x, dict_set (g x) (h x) acc) acc l)
  ↔ k ∈ dict_keys acc ∨ k ∈ g <$> l.
Proof.
  revert acc. induction l as [|x l IH]; intros acc; cbn [foldl].
  - rewrite fmap_nil, elem_of_nil. tauto.
  - rewrite IH, dict_keys_set, fmap_cons, elem_of_cons.
    case_decide as Hg.
    + split; [tauto|]. intros [?|[->|?]]; tauto.
    + rewrite elem_of_app, list_elem_of_singleton. tauto.
Qed.

End lookups.

Section evaluate_more.
Context {F Nucleus Rate : Type}.
Context `{!PyFloat F, !PyMath F, !NucleusT Nucleus, !RateT F Nucleus Rate}.
Implicit Types (r : Rate) (n : Nucleus) (c : Composition F Nucleus).
Implicit Types (w : World F Nucleus Rate) (rc : RateCollection Nucleus Rate).

(** [get_molar] returns on mass numbers that are not zero as floats, with
    the keys of [X]. *)
Lemma get_molar_keys c :
  (∀ k, k ∈ dict_keys (X c) →
        f_eqb (f_of_int (Zpos (A k))) (f_of_int 0 : F) = false) →
  ∃ ys, get_molar c = (Ok ys, c) ∧
        ∀ k, k ∈ dict_keys ys ↔ k ∈ dict_keys (X c).
Proof.
  intros HA. unfold get_molar. rewrite bind_get_run. unfold lift.
  rewrite (rfold_Ok _
    (λ acc kv, dict_set kv.1 (f_div kv.2 (f_of_int (Zpos (A kv.1)))) acc)).
  - eexists. split; [done|]. intros k.
    rewrite (dict_keys_foldl_set_items fst
               (λ kv, f_div kv.2 (f_of_int (Zpos (A kv.1))))).
    unfold dict_keys at 1. rewrite elem_of_nil. tauto.
  - intros acc [k v] Hkv. unfold py_truediv. rewrite HA; [done|].
    apply list_elem_of_fmap. by exists (k, v).
Qed.

(** The loop of [evaluate_rates] over the molar fractions [ys]. *)
Lemma evaluate_rates_loop rho T w ys :
  get_molar (w_composition w) = (Ok ys, w_composition w) →
  evaluate_rates rho T w
  = (rfold (λ rvals r,
              p ← py_pow rho (dens_exp r);
              let val := f_mul (f_mul (prefactor r) p) (Rate_eval r T) in
              qs ← rmap (λ q, dict_getitem q ys) (reactants r);
              yfac ← py_reduce f_mul qs;
              Ok (dict_set r (f_mul yfac val) rvals))
           [] (rates (w_self w)), w).
Proof.
  intros Hys. destruct w as [rc c]. cbn [w_self w_composition] in *.
  unfold evaluate_rates. rewrite bind_run. unfold on_composition.
  cbn [w_self w_composition]. rewrite Hys. by rewrite bind_get_run.
Qed.

Lemma py_pow_is_Ok (rho : F) e :
  is_Ok (py_pow rho e) ↔ (f_eqb rho (f_of_int 0) = true → 0 ≤ e).
Proof.
  unfold py_pow. destruct (f_eqb rho (f_of_int 0)); cbn [andb].
  - destruct (Z.ltb_spec e 0); cbn [is_Ok].
    + split; [done|]. intros He. specialize (He eq_refl). lia.
    + split; [by intros _ _|done].
  - split; done.
Qed.

Lemma rate_step_is_Ok rho T (ys : dict Nucleus F) (rvals : dict Rate F) r :
  is_Ok (p ← py_pow rho (dens_exp r);
         let val := f_mul (f_mul (prefactor r) p) (Rate_eval r T) in
         qs ← rmap (λ q, dict_getitem q ys) (reactants r);
         yfac ← py_reduce f_mul qs;
         Ok (dict_set r (f_mul yfac val) rvals))
  ↔ (f_eqb rho (f_of_int 0) = true → 0 ≤ dens_exp r) ∧
    reactants r ≠ [] ∧
    ∀ n, n ∈ reactants r → n ∈ dict_keys ys.
Proof.
  rewrite <-py_pow_is_Ok, <-rmap_getitem_is_Ok.
  destruct (py_pow rho (dens_exp r)) as [p|e]; cbn [mbind result_bind rbind is_Ok];
    [|tauto].
  destruct (rmap _ (reactants r)) as [qs|e] eqn:Hqs;
    cbn [mbind result_bind rbind is_Ok]; [|tauto].
  destruct qs as [|q qs]; cbn [py_reduce mbind result_bind rbind is_Ok].
  - apply rmap_nil_inv in Hqs. tauto.
  - split; [|done]. intros _. split_and!; [done| |done].
    intros Hnil. by rewrite Hnil in Hqs.
Qed.

(** A step of the loop raises [ZeroDivisionError] at an undefined power,
    else [KeyError] at a reactant without molar fraction, else [TypeError]
    at a rate with no reactant. *)
Lemma rate_step_Raise rho T (ys : dict Nucleus F) (rvals : dict Rate F) r e :
  (p ← py_pow rho (dens_exp r);
   let val := f_mul (f_mul (prefactor r) p) (Rate_eval r T) in
   qs ← rmap (λ q, dict_getitem q ys) (reactants r);
   yfac ← py_reduce f_mul qs;
   Ok (dict_set r (f_mul yfac val) rvals)) = Raise e →
  (e = ZeroDivisionError ∧ f_eqb rho (f_of_int 0) = true ∧ dens_exp r < 0) ∨
  (e = KeyError ∧ ∃ n, n ∈ reactants r ∧ n ∉ dict_keys ys) ∨
  (e = TypeError ∧ reactants r = []).
Proof.
  unfold py_pow.
  destruct (f_eqb rho (f_of_int 0)); cbn [andb].
  - destruct (Z.ltb_spec (dens_exp r) 0); cbn [mbind result_bind rbind].
    { intros [= <-]. by left. }
    destruct (rmap _ (reactants r)) as [qs|e'] eqn:Hqs;
      cbn [mbind result_bind rbind].
    + destruct qs as [|q qs]; cbn [py_reduce mbind result_bind rbind]; [|done].
      intros [= <-]. right. right. split; [done|]. by eapply rmap_nil_inv.
    + intros [= <-]. right. left. by eapply rmap_getitem_Raise.
  - cbn [mbind result_bind rbind].
    destruct (rmap _ (reactants r)) as [qs|e'] eqn:Hqs;
      cbn [mbind result_bind rbind].
    + destruct qs as [|q qs]; cbn [py_reduce mbind result_bind rbind]; [|done].
      intros [= <-]. right. right. split; [done|]. by eapply rmap_nil_inv.
    + intros [= <-]. right. left. by eapply rmap_getitem_Raise.
Qed.

Lemma evaluate_rates_Ok_iff rho T w :
  (∀ k, k ∈ dict_keys (X (w_composition w)) →
        f_eqb (f_of_int (Zpos (A k))) (f_of_int 0 : F) = false) →
  is_Ok (evaluate_rates rho T w).1 ↔
  ∀ r, r ∈ rates (w_self w) →
       (f_eqb rho (f_of_int 0) = true → 0 ≤ dens_exp r) ∧
       reactants r ≠ [] ∧
       ∀ n, n ∈ reactants r → n ∈ dict_keys (X (w_composition w)).
Proof.
  intros HA. destruct (get_molar_keys _ HA) as (ys & Hys & Hkeys).
  rewrite (evaluate_rates_loop rho T w ys Hys). cbn [fst].
  apply rfold_is_Ok. intros rvals r _.
  rewrite rate_step_is_Ok. by setoid_rewrite Hkeys.
Qed.

(** The exception [evaluate_rates] raises comes from one of the held
    rates. *)
Lemma evaluate_rates_Raise rho T w e :
  (∀ k, k ∈ dict_keys (X (w_composition w)) →
        f_eqb (f_of_int (Zpos (A k))) (f_of_int 0 : F) = false) →
  (evaluate_rates rho T w).1 = Raise e →
  ∃ r, r ∈ rates (w_self w) ∧
       ((e = ZeroDivisionError ∧
         f_eqb rho (f_of_int 0) = true ∧ dens_exp r < 0) ∨
        (e = KeyError ∧
         ∃ n, n ∈ reactants r ∧ n ∉ dict_keys (X (w_composition w))) ∨
        (e = TypeError ∧ reactants r = [])).
Proof.
  intros HA.
  destruct (get_molar_keys _ HA) as (ys & Hys & Hkeys).
  rewrite (evaluate_rates_loop rho T w ys Hys). cbn [fst].
  apply (rfold_Raise_in _ (λ e, ∃ r, r ∈ rates (w_self w) ∧
            ((e = ZeroDivisionError ∧
              f_eqb rho (f_of_int 0) = true ∧ dens_exp r < 0) ∨
             (e = KeyError ∧
              ∃ n, n ∈ reactants r ∧ n ∉ dict_keys (X (w_composition w))) ∨
             (e = TypeError ∧ reactants r = [])))).
  intros rvals r e' Hr Hstep. exists r. split; [done|].
  apply rate_step_Raise in Hstep as [?|[(-> & n & Hn & Hmiss)|?]];
    [by left| |by right; right].
  right. left. split; [done|]. exists n. split; [done|]. by rewrite <-Hkeys.
Qed.

Lemma evaluate_rates_keeps_world rho T w :
  (∀ k, k ∈ dict_keys (X (w_composition w)) →
        f_eqb (f_of_int (Zpos (A k))) (f_of_int 0 : F) = false) →
  (evaluate_rates rho T w).2 = w.
Proof.
  intros HA. destruct (get_molar_keys _ HA) as (ys & Hys & _).
  by rewrite (evaluate_rates_loop rho T w ys Hys).
Qed.

Lemma rfold_dict_set_all_keys {V} (body : dict Rate V → Rate → result (dict Rate V))
    acc l d :
  (∀ acc x acc', body acc x = Ok acc' → ∃ v, acc' = dict_set x v acc) →
  rfold body acc l = Ok d →
  (∀ k, k ∈ dict_keys d ↔ k ∈ dict_keys acc ∨ k ∈ l) ∧
  (NoDup (dict_keys acc) → NoDup (dict_keys d)).
Proof.
  intros Hb. revert acc. induction l as [|x l IH]; intros acc; cbn [rfold].
  - intros [= <-]. split; [|done]. intros k. rewrite elem_of_nil. tauto.
  - destruct (body acc x) as [acc'|] eqn:Hx; cbn [rbind]; [|done].
    intros Hfold. apply Hb in Hx as [v ->].
    destruct (IH _ Hfold) as [Hkeys Hnd]. split.
    + intros k. rewrite Hkeys, dict_keys_set, elem_of_cons.
      case_decide as Hin.
      * split; [tauto|]. intros [?|[->|?]]; tauto.
      * rewrite elem_of_app, list_elem_of_singleton. tauto.
    + intros Hacc. apply Hnd. rewrite dict_keys_set. case_decide; [done|].
      apply NoDup_app. split_and!; [done| |apply NoDup_singleton].
      intros k Hk ->%list_elem_of_singleton. done.
Qed.

(** X15: the dictionary [evaluate_rates] returns has exactly the
    held rates as keys, each once. *)
Theorem evaluate_rates_one_value_per_rate rho T w rvals :
  (evaluate_rates rho T w).1 = Ok rvals →
  (∀ r, r ∈ dict_keys rvals ↔ r ∈ rates (w_self w)) ∧
  NoDup (dict_keys rvals).
Proof.
  unfold evaluate_rates. rewrite bind_run. unfold on_composition.
  destruct (get_molar (w_composition w)) as [[ys|e] c']; [|done].
  rewrite bind_get_run. unfold lift. cbn [fst w_self]. intros Hfold.
  eapply rfold_dict_set_all_keys in Hfold as [Hkeys Hnd].
  - split; [|apply Hnd, NoDup_nil_2].
    intros r. rewrite Hkeys. unfold dict_keys at 1. rewrite fmap_nil, elem_of_nil.
    tauto.
  - intros acc x acc'. cbn beta.
    destruct (py_pow rho (dens_exp x)); cbn [mbind result_bind rbind]; [|done].
    destruct (rmap _ (reactants x)); cbn [mbind result_bind rbind]; [|done].
    destruct (py_reduce f_mul _); cbn [mbind result_bind rbind]; [|done].
    intros [= <-]. eauto.
Qed.

End evaluate_more.

(** ** When evaluation returns and what it raises *)

Section evaluate_exact_more.
Context {Nucleus Rate : Type}.
Context `{!PyMath Qc, !NucleusT Nucleus, !RateT Qc Nucleus Rate}.
Implicit Types (r : Rate) (n : Nucleus) (c : Composition Qc Nucleus).
Implicit Types (w : World Qc Nucleus Rate).

Lemma list_product_zero (l : list Qc) : 0%Qc ∈ l → list_product l = 0%Qc.
Proof.
  unfold list_product. induction l as [|x l IH]; [by intros ?%elem_of_nil|].
  cbn [foldr]. intros [<-|Hin]%elem_of_cons; [ring|]. rewrite IH by done. ring.
Qed.

Lemma Qc_mass_numbers c k :
  k ∈ dict_keys (X c) →
  f_eqb (f_of_int (Zpos (A k))) (f_of_int 0 : Qc) = false.
Proof. intros _. apply Qc_f_eqb_false. by apply Qc_of_int_nonzero. Qed.

Lemma Qc_f_eqb_true (x y : Qc) : f_eqb x y = true ↔ x = y.
Proof. apply bool_decide_eq_true. Qed.

(** X16: in exact arithmetic, [evaluate_rates] returns exactly
    when, for every held rate, the density is not zero or the density
    exponent is not negative, the rate has a reactant, and every reactant
    is a key of the composition.  When it raises, some held rate accounts
    for the exception: [ZeroDivisionError] for density zero under a
    negative exponent, [KeyError] for a reactant that is no key of the
    composition, [TypeError] for a rate with no reactant; it raises
    nothing else. *)
Theorem evaluate_rates_returns_iff rho T w :
  (is_Ok (evaluate_rates rho T w).1 ↔
   ∀ r, r ∈ rates (w_self w) →
        (rho = 0%Qc → 0 ≤ dens_exp r) ∧
        reactants r ≠ [] ∧
        ∀ n, n ∈ reactants r → n ∈ dict_keys (X (w_composition w))) ∧
  ∀ e, (evaluate_rates rho T w).1 = Raise e →
       ∃ r, r ∈ rates (w_self w) ∧
            ((e = ZeroDivisionError ∧ rho = 0%Qc ∧ dens_exp r < 0) ∨
             (e = KeyError ∧
              ∃ n, n ∈ reactants r ∧ n ∉ dict_keys (X (w_composition w))) ∨
             (e = TypeError ∧ reactants r = [])).
Proof.
  split.
  - rewrite evaluate_rates_Ok_iff by apply Qc_mass_numbers.
    by setoid_rewrite Qc_f_eqb_true.
  - intros e He.
    apply evaluate_rates_Raise in He as (r & Hr & He);
      [|by apply Qc_mass_numbers].
    exists r. split; [done|]. by rewrite Qc_f_eqb_true in He.
Qed.

(** X17: in exact arithmetic, when every power is defined and every
    rate has a reactant, a held rate with a reactant that is no key of the
    composition makes [evaluate_rates] raise [KeyError], and nothing is
    changed. *)
Theorem evaluate_rates_KeyError rho T w :
  (∀ r, r ∈ rates (w_self w) →
        (rho = 0%Qc → 0 ≤ dens_exp r) ∧ reactants r ≠ []) →
  (∃ r n, r ∈ rates (w_self w) ∧ n ∈ reactants r ∧
          n ∉ dict_keys (X (w_composition w))) →
  evaluate_rates rho T w = (Raise KeyError, w).
Proof.
  intros Hdef (r & n & Hr & Hn & Hmiss).
  pose proof (evaluate_rates_Ok_iff rho T w (Qc_mass_numbers _)) as Hiff.
  pose proof (evaluate_rates_keeps_world rho T w (Qc_mass_numbers _)) as Hw.
  destruct (evaluate_rates rho T w) as [[rvals|e] w'] eqn:Hrun;
    cbn [fst snd] in *; subst w'.
  - destruct (proj1 Hiff I r Hr) as (_ & _ & Hin). by destruct Hmiss; apply Hin.
  - do 2 f_equal.
    assert ((evaluate_rates rho T w).1 = Raise e) as He by (by rewrite Hrun).
    apply evaluate_rates_Raise in He as (r' & Hr' & He);
      [|by apply Qc_mass_numbers].
    destruct (Hdef r' Hr') as [Hpow Hne].
    destruct He as [(_ & Hz%Qc_f_eqb_true & Hneg)|[[? _]|[_ ?]]]; [|done..].
    specialize (Hpow Hz). lia.
Qed.

(** X18: in exact arithmetic, a rate one of whose reactants has
    mass fraction 0 is evaluated to 0. *)
Theorem evaluate_rates_absent_reactant rho T w rvals r n :
  NoDup (dict_keys (X (w_composition w))) →
  (evaluate_rates rho T w).1 = Ok rvals →
  r ∈ rates (w_self w) → n ∈ reactants r →
  dict_get n (X (w_composition w)) = Some 0%Qc →
  dict_get r rvals = Some 0%Qc.
Proof.
  intros Hnd Hok Hr Hn Hzero.
  assert (is_Ok (evaluate_rates rho T w).1) as Hall by (by rewrite Hok).
  rewrite evaluate_rates_Ok_iff in Hall by apply Qc_mass_numbers.
  rewrite evaluate_rates_run in Hok; first last.
  - destruct (decide (rho = 0%Qc)) as [->|Hrho]; [right|by left].
    intros r' Hr'. destruct (Hall r' Hr') as (Hpow & _). apply Hpow.
    by apply bool_decide_eq_true.
  - intros r' Hr'. by destruct (Hall r' Hr') as (_ & ? & _).
  - intros r' n' Hr' Hn'. destruct (Hall r' Hr') as (_ & _ & Hin). by apply Hin.
  - done.
  - cbn [fst] in Hok. injection Hok as <-.
    rewrite (dict_get_foldl_set (rate_formula rho T (w_composition w))).
    rewrite decide_True by done. f_equal.
    unfold rate_formula. rewrite multiset_product_list, list_product_zero; [ring|].
    apply list_elem_of_fmap. exists n. split; [|done].
    unfold molar_fraction. rewrite Hzero. unfold Qcdiv. ring.
Qed.

End evaluate_exact_more.

(** ** Nodes and edges of the graph *)

(** An element of a concatenated comprehension comes from one of its
    parts. *)
Lemma rconcat_map_elem {A B} (f : A → result (list B)) (l : list A) out x :
  rconcat_map f l = Ok out → x ∈ out →
  ∃ a la, a ∈ l ∧ f a = Ok la ∧ x ∈ la.
Proof.
  unfold rconcat_map. revert out.
  induction l as [|a l IH]; intros out.
  - cbn. intros [= <-] ?%elem_of_nil. done.
  - rewrite rmap_cons.
    destruct (f a) as [la|] eqn:Ha; cbn [mbind result_bind rbind]; [|done].
    destruct (rmap f l) as [ls|]; cbn [mbind result_bind rbind] in *; [|done].
    intros [= <-]. cbn [concat]. intros [Hx|Hx]%elem_of_app.
    + exists a, la. split; [by left|done].
    + destruct (IH _ eq_refl Hx) as (a' & la' & ? & ? & ?).
      exists a', la'. split; [by right|done].
Qed.

Section plot_more.
Context {F Nucleus Rate : Type}.
Context `{!PyFloat F, !PyMath F, !NucleusT Nucleus, !RateT F Nucleus Rate}.
Implicit Types (r : Rate) (n p : Nucleus) (c : Composition F Nucleus).
Implicit Types (rc : RateCollection Nucleus Rate).

(** X19: in the graph of [plot], whatever arguments it is given, a
    nucleus is a node exactly when it is a unique nucleus that is not
    named [p], [n] or [he4], or occurs more than once among the reactants
    of some rate; every edge joins two nodes and comes from a rate that
    consumes its source and has its target among the products. *)
Theorem plot_edges_join_nodes rc rho T comp nodes edges :
  plot_graph rc rho T comp = Ok (nodes, edges) →
  (∀ x, x ∈ nodes ↔
        x ∈ unique_nuclei rc ∧
        (raw x ∉ ["p"; "n"; "he4"] ∨
         ∃ r, r ∈ rates rc ∧ (1 < list_count x (reactants r))%nat)) ∧
  (∀ n p w, (n, p, w) ∈ edges →
            n ∈ nodes ∧ p ∈ nodes ∧
            ∃ consumed r, dict_get n (nuclei_consumed rc) = Some consumed ∧
                          r ∈ consumed ∧ p ∈ products r).
Proof.
  unfold plot_graph.
  destruct (match rho, T, comp with
            | Some rho, Some T, Some comp => _ | _, _, _ => _ end)
    as [ydots|]; cbn [mbind result_bind rbind]; [|done].
  destruct (plot_edges rc ydots) as [edges'|] eqn:Hedges;
    cbn [mbind result_bind rbind]; [|done].
  intros [= <- <-]. split.
  - intros x. unfold node_nuclei. rewrite list_elem_of_filter, Exists_exists.
    tauto.
  - intros n p w Hin. unfold plot_edges in Hedges.
    destruct (rconcat_map_elem _ _ _ _ Hedges Hin) as (n' & es & Hn' & Hes & Hin1).
    destruct (dict_getitem n' (nuclei_consumed rc)) as [consumed|] eqn:Hc;
      cbn [mbind result_bind rbind] in Hes; [|done].
    destruct (rconcat_map_elem _ _ _ _ Hes Hin1) as (r & es2 & Hr & Hes2 & Hin2).
    destruct (rconcat_map_elem _ _ _ _ Hes2 Hin2) as (p' & es3 & Hp' & Hes3 & Hin3).
    case_decide as Hp; [|injection Hes3 as <-; by apply elem_of_nil in Hin3].
    destruct (rate_weight ydots r) as [w'|]; cbn [mbind result_bind rbind] in Hes3;
      [|done].
    injection Hes3 as <-. apply list_elem_of_singleton in Hin3 as [= -> -> ->].
    split_and!; [done..|]. exists consumed, r. split_and!; [|done..].
    unfold dict_getitem in Hc. by destruct (dict_get n' (nuclei_consumed rc)) as [?|]; simplify_eq.
Qed.

Lemma plot_edges_None_run rs rc :
  RateCollection_init rs = Ok rc →
  plot_edges rc None
  = Ok (n ← node_nuclei rc;
        r ← filter (λ r, n ∈ reactants r) rs;
        p ← products r;
        if decide (p ∈ node_nuclei rc) then [(n, p, py_lit 5 1)] else []).
Proof.
  intros Hinit. unfold plot_edges.
  apply rconcat_map_Ok. intros n Hn%node_nuclei_unique.
  apply RateCollection_init_Ok in Hinit as (_ & _ & Hc & _).
  unfold dict_getitem. rewrite Hc.
  rewrite (dict_get_foldl_set (λ n, filter (λ r, n ∈ reactants r) rs)).
  rewrite decide_True by done. cbn [mbind result_bind rbind].
  apply rconcat_map_Ok. intros r _.
  apply rconcat_map_Ok. intros p Hp. by case_decide.
Qed.

(** X20: when the density, the temperature or the composition is not
    given, [plot] does not evaluate the rates: it builds its graph without
    raising, every edge has weight 0.5, and every held rate joining two
    nodes has its edge. *)
Theorem plot_without_state rs rc rho T comp :
  RateCollection_init rs = Ok rc →
  rho = None ∨ T = None ∨ comp = None →
  ∃ edges,
    plot_graph rc rho T comp = Ok (node_nuclei rc, edges) ∧
    (∀ n p w, (n, p, w) ∈ edges → w = py_lit 5 1) ∧
    (∀ n p r, n ∈ node_nuclei rc → p ∈ node_nuclei rc → r ∈ rates rc →
              n ∈ reactants r → p ∈ products r →
              (n, p, py_lit 5 1) ∈ edges).
Proof.
  intros Hinit Hnone.
  pose proof (rates_Permutation _ _ Hinit) as Hperm.
  assert (plot_graph rc rho T comp
          = plot_edges rc None ≫= λ edges, Ok (node_nuclei rc, edges)) as ->.
  { unfold plot_graph.
    destruct Hnone as [->|[->| ->]]; [done| |]; destruct rho; try done;
      by destruct T. }
  rewrite (plot_edges_None_run rs) by done. cbn [mbind result_bind rbind].
  eexists. split_and!; [done| |].
  - intros n p w Hin.
    apply list_elem_of_bind in Hin as (n' & Hin & Hn').
    apply list_elem_of_bind in Hin as (r & Hin & _).
    apply list_elem_of_bind in Hin as (p' & Hin & Hp').
    case_decide; [|by apply elem_of_nil in Hin].
    by apply list_elem_of_singleton in Hin as [= -> -> ->].
  - intros n p r Hn Hp Hr Hnr Hpr.
    apply list_elem_of_bind. exists n. split; [|done].
    apply list_elem_of_bind. exists r. split.
    + apply list_elem_of_bind. exists p. split; [|done].
      rewrite decide_True by done. by apply list_elem_of_singleton.
    + apply list_elem_of_filter. split; [done|]. by rewrite <-Hperm.
Qed.

End plot_more.

(** ** The overview *)

Lemma string_app_assoc (a b c : string) : (a +:+ b) +:+ c = a +:+ (b +:+ c).
Proof.
  induction a as [|x a IH]; [done|].
  change (String x ((a +:+ b) +:+ c) = String x (a +:+ (b +:+ c))).
  by rewrite IH.
Qed.

Lemma string_app_nil_r (a : string) : a +:+ EmptyString = a.
Proof.
  induction a as [|x a IH]; [done|].
  change (String x (a +:+ EmptyString) = String x a). by rewrite IH.
Qed.

Lemma foldl_string_app {A} (g : A → string) (a : string) (l : list A) :
  foldl (λ acc x, acc +:+ g x) a l
  = a +:+ foldr (λ x s, g x +:+ s) EmptyString l.
Proof.
  revert a. induction l as [|x l IH]; intros a; cbn [foldl foldr].
  - by rewrite string_app_nil_r.
  - by rewrite IH, string_app_assoc.
Qed.

Section overview_facts.
Context {F Nucleus Rate : Type}.
Context `{!PyFloat F, !PyMath F, !NucleusT Nucleus, !RateT F Nucleus Rate}.
Context `{!NucleusStr Nucleus, !RateStr Rate}.
Implicit Types (r : Rate) (n : Nucleus) (rc : RateCollection Nucleus Rate).

Lemma add_rate_lines_app (ostr : string) (rs : list Rate) :
  add_rate_lines ostr rs = ostr +:+ rate_lines rs.
Proof.
  unfold add_rate_lines, rate_lines.
  apply (foldl_string_app (λ r, "     " +:+ Rate_string r +:+ newline)).
Qed.

(** X21: on a constructed collection [network_overview] returns
    (no lookup fails); the text has one block for each unique nucleus, in
    sorted order, that lists the rates consuming it and the rates
    producing it in the order the library gave them. *)
Theorem network_overview_blocks rs rc :
  RateCollection_init rs = Ok rc →
  network_overview rc
  = Ok (foldr (λ n s, overview_block rs n +:+ s) EmptyString
              (unique_nuclei rc)).
Proof.
  intros (_ & _ & Hc & Hp)%RateCollection_init_Ok.
  unfold network_overview.
  rewrite (rfold_Ok _ (λ ostr n, ostr +:+ overview_block rs n)).
  - f_equal. by rewrite (foldl_string_app (overview_block rs)).
  - intros ostr n Hn. unfold dict_getitem. rewrite Hc, Hp.
    rewrite (dict_get_foldl_set (λ n, filter (λ r, n ∈ reactants r) rs)).
    rewrite (dict_get_foldl_set (λ n, filter (λ r, n ∈ products r) rs)).
    rewrite !decide_True by done. cbn [mbind result_bind rbind]. f_equal.
    rewrite !add_rate_lines_app. unfold overview_block.
    by rewrite !string_app_assoc.
Qed.

Lemma repr_lines_app (l0 l1 : list Rate) :
  repr_lines (l0 ++ l1) = repr_lines l0 +:+ repr_lines l1.
Proof.
  unfold repr_lines. induction l0 as [|r l0 IH]; [done|].
  change (foldr (λ r s, (Rate_string r +:+ newline) +:+ s) EmptyString
            ((r :: l0) ++ l1))
    with ((Rate_string r +:+ newline)
          +:+ foldr (λ r s, (Rate_string r +:+ newline) +:+ s) EmptyString
                (l0 ++ l1)).
  rewrite IH. cbn [foldr]. by rewrite !string_app_assoc.
Qed.

(** X22: the text [__repr__] gives for a constructed collection has one
    line for each rate the library gave, the rates that are not tabulated
    first and the tabulated ones after them, each group in the order of
    the library. *)
Theorem repr_reaclib_first rs rc :
  RateCollection_init rs = Ok rc →
  RateCollection_repr rc
  = repr_lines (filter (λ r, chapter r ≠ PyStr "t") rs)
    +:+ repr_lines (filter (λ r, chapter r = PyStr "t") rs).
Proof.
  intros (Hrates & _)%RateCollection_init_Ok.
  unfold RateCollection_repr.
  rewrite (foldl_string_app (λ r, Rate_string r +:+ newline)).
  change (repr_lines (rates rc)
          = repr_lines (filter (λ r, chapter r ≠ PyStr "t") rs)
            +:+ repr_lines (filter (λ r, chapter r = PyStr "t") rs)).
  rewrite Hrates, py_sorted_bool_key, repr_lines_app.
  assert (∀ r, is_tabular r ↔ chapter r = PyStr "t") as Htab.
  { intros r. unfold is_tabular. by rewrite bool_decide_spec. }
  f_equal; f_equal; apply list_filter_iff; intros r; by rewrite Htab.
Qed.

End overview_facts.

(** ** The further properties on the concrete network *)

(** X1 on a sequence that names the proton twice. *)
Lemma Composition_init_keys_witness :
  ∃ d0 : dict (pyobj Sample.nucleus) Qc,
    Composition_init Sample.repeated_nuclei small_default = Ok d0 ∧
    dict_keys d0 = reverse (remove_dups (reverse Sample.repeated_nuclei)) ∧
    NoDup (dict_keys d0) ∧
    (∀ o, o ∈ dict_keys d0 ↔ o ∈ Sample.repeated_nuclei) ∧
    (∀ o, o ∈ Sample.repeated_nuclei → dict_get o d0 = Some small_default).
Proof.
  eexists. split; [reflexivity|].
  refine (Composition_init_keys (NucleusT0 := Sample.nucleus_NucleusT)
            Sample.repeated_nuclei small_default _ _).
  reflexivity.
Defined.

(** X2 on the composition of the concrete network, with 0.25. *)
Lemma set_all_overwrites_witness :
  NoDup (dict_keys (X Sample.composition)) ∧
  ∃ c', set_all (Sample.q 25 2) Sample.composition = (Ok tt, c') ∧
        dict_keys (X c') = dict_keys (X Sample.composition) ∧
        (∀ k, k ∈ dict_keys (X Sample.composition) →
              dict_get k (X c') = Some (Sample.q 25 2)) ∧
        (∀ y, set_all y c' = set_all y Sample.composition).
Proof.
  split; [by_evaluation|].
  refine (set_all_overwrites (Sample.q 25 2) Sample.composition _).
  by_evaluation.
Defined.

(** X5 in binary64, on the mass fractions 1.0 and -1.0. *)
Lemma normalize_zero_sum_witness :
  NoDup (dict_keys (X Sample.balanced)) ∧
  f_eqb (py_sum (dict_values (X Sample.balanced))) (f_of_int 0) = true ∧
  (X Sample.balanced ≠ [] →
   normalize Sample.balanced = (Raise ZeroDivisionError, Sample.balanced)) ∧
  (X Sample.balanced = [] →
   normalize Sample.balanced = (Ok tt, Sample.balanced)).
Proof.
  split; [by_evaluation|]. split; [by vm_compute|].
  refine (normalize_zero_sum Sample.balanced _ _); [by_evaluation|by vm_compute].
Defined.

(** X7 on the composition of the concrete network. *)
Lemma normalize_sums_to_one_witness :
  NoDup (dict_keys (X Sample.composition)) ∧
  py_sum (dict_values (X Sample.composition)) ≠ 0%Qc ∧
  ∃ c1, normalize Sample.composition = (Ok tt, c1) ∧
        dict_keys (X c1) = dict_keys (X Sample.composition) ∧
        py_sum (dict_values (X c1)) = 1%Qc ∧
        ∀ k x, dict_get k (X Sample.composition) = Some x →
               dict_get k (X c1)
               = Some (x / py_sum (dict_values (X Sample.composition)))%Qc.
Proof.
  split; [by_evaluation|]. split; [by_evaluation|].
  refine (normalize_sums_to_one Sample.composition _ _); by_evaluation.
Defined.

(** X6 in binary64, on a composition over the proton and He4. *)
Lemma set_solar_like_two_nuclei_witness :
  f_eqb (f_of_int 0 : float) (f_of_int 0) = true ∧
  length (X Sample.hydrogen_helium) = 2%nat ∧
  set_solar_like (py_lit 2 2) Sample.hydrogen_helium
  = (Raise ZeroDivisionError, Sample.hydrogen_helium).
Proof.
  split; [by vm_compute|]. split; [reflexivity|].
  refine (set_solar_like_two_nuclei (py_lit 2 2) Sample.hydrogen_helium _ _);
    [by vm_compute|reflexivity].
Defined.

(** X9 on five nuclei with Z = 0.05. *)
Lemma set_solar_like_exact_witness :
  ∃ c1,
    set_solar_like (Sample.q 5 2) Sample.five_nuclei = (Ok tt, c1) ∧
    dict_keys (X c1) = dict_keys (X Sample.five_nuclei) ∧
    dict_get Sample.p (X c1) = Some (py_lit 7 1) ∧
    dict_get Sample.he4 (X c1) = Some (py_lit 3 1 - Sample.q 5 2)%Qc ∧
    (∀ k, k ∈ [Sample.c12; Sample.d; Sample.o16] →
          dict_get k (X c1)
          = Some (Sample.q 5 2
                  / f_of_int (Z.of_nat (length [Sample.c12; Sample.d; Sample.o16])))%Qc) ∧
    py_sum (dict_values (X c1)) = 1%Qc.
Proof.
  refine (set_solar_like_exact (Sample.q 5 2) Sample.five_nuclei Sample.he4
            [Sample.c12; Sample.d; Sample.o16] _ _ _ _ _).
  - by_evaluation.
  - by_evaluation.
  - reflexivity.
  - intros k Hk. in_cases Hk; by_evaluation.
  - done.
Defined.

(** X8 on a composition without helium. *)
Lemma set_solar_like_normalized_witness :
  NoDup (dict_keys (X Sample.no_helium)) ∧
  X Sample.no_helium ≠ [] ∧
  ∃ c1, set_solar_like (Sample.q 2 2) Sample.no_helium = (Ok tt, c1) ∧
        py_sum (dict_values (X c1)) = 1%Qc.
Proof.
  split; [by_evaluation|]. split; [done|].
  eexists. split; [vm_compute; reflexivity|].
  refine (set_solar_like_normalized (Sample.q 2 2) Sample.no_helium _ _ _ _).
  - by_evaluation.
  - done.
  - vm_compute. reflexivity.
Defined.

(** X10 on the composition of the concrete network. *)
Lemma get_molar_round_trip_witness :
  NoDup (dict_keys (X Sample.composition)) ∧
  ∃ ys, get_molar Sample.composition = (Ok ys, Sample.composition) ∧
        dict_keys ys = dict_keys (X Sample.composition) ∧
        ∀ k x, dict_get k (X Sample.composition) = Some x →
               ∃ y, dict_get k ys = Some y ∧
                    (y * f_of_int (Zpos (A k)))%Qc = x.
Proof.
  split; [by_evaluation|].
  refine (get_molar_round_trip Sample.composition _). by_evaluation.
Defined.

(** X11 on four nuclei with the value 3. *)
Lemma set_all_normalize_uniform_witness :
  ∃ c1 c2,
    set_all (Sample.q 3 0) Sample.four_nuclei = (Ok tt, c1) ∧
    normalize c1 = (Ok tt, c2) ∧
    dict_keys (X c2) = dict_keys (X Sample.four_nuclei) ∧
    ∀ k, k ∈ dict_keys (X Sample.four_nuclei) →
         dict_get k (X c2)
         = Some (1 / f_of_int (Z.of_nat (length (X Sample.four_nuclei))))%Qc.
Proof.
  refine (set_all_normalize_uniform (Sample.q 3 0) Sample.four_nuclei _ _ _).
  - by_evaluation.
  - done.
  - by_evaluation.
Defined.

(** X13 on the concrete network: three Reaclib rates, then the tabulated one. *)
Lemma index_lists_partition_witness :
  reaclib_rates Sample.collection = seq 0 3 ∧
  tabular_rates Sample.collection = seq 3 (length Sample.network - 3) ∧
  ∀ i r, rates Sample.collection !! i = Some r →
         (i ∈ tabular_rates Sample.collection ↔ chapter r = PyStr "t") ∧
         (i ∈ reaclib_rates Sample.collection ↔ ∃ z, chapter r = PyInt z).
Proof.
  exact (index_lists_partition Sample.network Sample.collection collection_init).
Defined.

(** X14 on the concrete network. *)
Lemma nuclei_index_keys_witness :
  dict_keys (nuclei_consumed Sample.collection) = unique_nuclei Sample.collection ∧
  dict_keys (nuclei_produced Sample.collection) = unique_nuclei Sample.collection ∧
  ∀ n, n ∈ unique_nuclei Sample.collection →
       dict_get n (nuclei_consumed Sample.collection)
       = Some (filter (λ r, n ∈ reactants r) Sample.network) ∧
       dict_get n (nuclei_produced Sample.collection)
       = Some (filter (λ r, n ∈ products r) Sample.network).
Proof.
  exact (nuclei_index_keys Sample.network Sample.collection collection_init).
Defined.

(** X17 on the concrete network with a composition of protons only: C12 is missing. *)
Lemma evaluate_rates_KeyError_witness :
  (∀ r, r ∈ rates (w_self Sample.protons_only) →
        (Sample.q 10 0 = 0%Qc → 0 ≤ dens_exp r) ∧ reactants r ≠ []) ∧
  (∃ r n, r ∈ rates (w_self Sample.protons_only) ∧ n ∈ reactants r ∧
          n ∉ dict_keys (X (w_composition Sample.protons_only))) ∧
  evaluate_rates (Sample.q 10 0) (Sample.q 1 0) Sample.protons_only
  = (Raise KeyError, Sample.protons_only).
Proof.
  assert (∀ r, r ∈ rates (w_self Sample.protons_only) →
               (Sample.q 10 0 = 0%Qc → 0 ≤ dens_exp r) ∧ reactants r ≠ [])
    as Hdef.
  { intros r Hr. cbn in Hr. in_cases Hr; (split; [by intros ?%(Qc_of_int_inj 10 0)|done]). }
  assert (∃ r n, r ∈ rates (w_self Sample.protons_only) ∧ n ∈ reactants r ∧
                 n ∉ dict_keys (X (w_composition Sample.protons_only)))
    as Hmiss.
  { exists Sample.c12_pg, Sample.c12. split_and!; by_evaluation. }
  split; [exact Hdef|]. split; [exact Hmiss|].
  exact (evaluate_rates_KeyError (Sample.q 10 0) (Sample.q 1 0)
           Sample.protons_only Hdef Hmiss).
Defined.

(** X15 on the concrete network. *)
Lemma evaluate_rates_one_value_per_rate_witness :
  ∃ rvals,
    (evaluate_rates (Sample.q 10 0) (Sample.q 1 0) Sample.world).1 = Ok rvals ∧
    (∀ r, r ∈ dict_keys rvals ↔ r ∈ rates (w_self Sample.world)) ∧
    NoDup (dict_keys rvals).
Proof.
  eexists. split; [vm_compute; reflexivity|].
  refine (evaluate_rates_one_value_per_rate (Sample.q 10 0) (Sample.q 1 0)
            Sample.world _ _).
  vm_compute. reflexivity.
Defined.

(** X18 on the concrete network: N13 has mass fraction 0, and the tabulated decay of N13 has the value 0. *)
Lemma evaluate_rates_absent_reactant_witness :
  ∃ rvals,
    NoDup (dict_keys (X (w_composition Sample.world))) ∧
    (evaluate_rates (Sample.q 10 0) (Sample.q 1 0) Sample.world).1 = Ok rvals ∧
    Sample.n13_tab ∈ rates (w_self Sample.world) ∧
    Sample.n13 ∈ reactants Sample.n13_tab ∧
    dict_get Sample.n13 (X (w_composition Sample.world)) = Some 0%Qc ∧
    dict_get Sample.n13_tab rvals = Some 0%Qc.
Proof.
  eexists. split; [by_evaluation|]. split; [vm_compute; reflexivity|].
  split; [by_evaluation|]. split; [by_evaluation|]. split; [by_evaluation|].
  refine (evaluate_rates_absent_reactant (Sample.q 10 0) (Sample.q 1 0)
            Sample.world _ Sample.n13_tab Sample.n13 _ _ _ _ _).
  - by_evaluation.
  - vm_compute. reflexivity.
  - by_evaluation.
  - by_evaluation.
  - by_evaluation.
Defined.

(** X19 on the concrete network, with no state given. *)
Lemma plot_edges_join_nodes_witness :
  ∃ nodes edges,
    plot_graph Sample.collection (None : option Qc) None None = Ok (nodes, edges) ∧
    (∀ x, x ∈ nodes ↔
          x ∈ unique_nuclei Sample.collection ∧
          (raw x ∉ ["p"; "n"; "he4"] ∨
           ∃ r, r ∈ rates Sample.collection ∧
                (1 < list_count x (reactants r))%nat)) ∧
    (∀ n p w, (n, p, w) ∈ edges →
              n ∈ nodes ∧ p ∈ nodes ∧
              ∃ consumed r,
                dict_get n (nuclei_consumed Sample.collection) = Some consumed ∧
                r ∈ consumed ∧ p ∈ products r).
Proof.
  eexists _, _. split; [vm_compute; reflexivity|].
  refine (plot_edges_join_nodes Sample.collection None None None _ _ _).
  vm_compute. reflexivity.
Defined.

(** X20 on the concrete network, with no temperature. *)
Lemma plot_without_state_witness :
  ∃ edges,
    plot_graph Sample.collection (Some (Sample.q 10 0)) None
               (Some Sample.composition)
    = Ok (node_nuclei Sample.collection, edges) ∧
    (∀ n p w, (n, p, w) ∈ edges → w = py_lit 5 1) ∧
    (∀ n p r, n ∈ node_nuclei Sample.collection →
              p ∈ node_nuclei Sample.collection →
              r ∈ rates Sample.collection →
              n ∈ reactants r → p ∈ products r →
              (n, p, py_lit 5 1) ∈ edges).
Proof.
  refine (plot_without_state Sample.network Sample.collection
            (Some (Sample.q 10 0)) None (Some Sample.composition)
            collection_init _).
  right. by left.
Defined.

(** X21 on the concrete network. *)
Lemma network_overview_blocks_witness :
  network_overview Sample.collection
  = Ok (foldr (λ n s, overview_block Sample.network n +:+ s) EmptyString
              (unique_nuclei Sample.collection)).
Proof.
  exact (network_overview_blocks Sample.network Sample.collection
           collection_init).
Defined.

(** X22 on the concrete network. *)
Lemma repr_reaclib_first_witness :
  RateCollection_repr Sample.collection
  = repr_lines (filter (λ r, chapter r ≠ PyStr "t") Sample.network)
    +:+ repr_lines (filter (λ r, chapter r = PyStr "t") Sample.network).
Proof.
  exact (repr_reaclib_first Sample.network Sample.collection collection_init).
Defined.
